(* ===== verification/_CoqProject ===== *)
-Q . S2P
Prelude.v
Words.v
Tables.v
Lfsr.v
Zuc.v
Keystream.v
Eea3.v
Eia3.v
TestVectors.v
