(* ===== verification/Prelude.v ===== *)
(** * A verification development of frankurcrazy/zuc

    The repository is a Go implementation of the ZUC stream cipher and of
    the two 3GPP constructions built on it, 128-EEA3 (confidentiality) and
    128-EIA3 (integrity).  Its parts, leaf first:

    - [src/common.go]: the 32-bit helpers [addM] (addition modulo the
      Mersenne prime p = 2^31-1), [mulByPow2] (multiplication by 2^k
      modulo p as a 31-bit rotation), [rot], [makeU32], [makeU31] and the
      linear diffusion maps [l1], [l2]; the [KeyDirection] constants.
    - the tables [S0], [S1] (two 8-bit S-boxes) and [D] (16 fifteen-bit
      constants).  They are used by [src/zuc.go] but their Go file is not
      among the sources: they are modelled from the ZUC standard that the
      spec points to and marked spec-modelled in the manifest.
    - [src/zuc.go]: the keystream generator.  Its state is the struct [ZUC]
      holding pointers to the [LFSR] (sixteen 31-bit cells), the bit
      reorganisation output [BRC] (X0..X3), the nonlinear-function memory
      [F] (R1, R2) and two flags [is_initialized], [is_first].  The
      operations are [update], [WithInitialisationMode], [WithWorkMode],
      [bitReorganization], [f_], [Initialization], [NextKey],
      [GenerateKeystream] and [NewZUC].
    - [src/eea3/eea3.go]: [NewEEA3] builds the confidentiality IV and a
      generator; [Encrypt] XORs the message with keystream bytes, masks the
      last partial byte and zeroes the padding; [Decrypt] is [Encrypt].
    - [src/eia3/eia3.go]: [NewEIA3] builds the integrity IV; [getZi] reads
      a 32-bit window of the keystream at any bit offset; [Hash] folds the
      windows selected by the message bits into a 32-bit tag; [Verify]
      compares tags.
    Data flows one way: EEA3 and EIA3 each own a [ZUC] value and draw
    keystream words from it with [GenerateKeystream]; nothing calls back.

    ** Files

    - [Prelude] (this file): Go's integer conversions on [Z] ([u32], [u8]),
      Go slices as lists with panicking [load]/[store], the byte order of
      [encoding/binary.BigEndian.PutUint32], a state-and-panic monad [Go]
      for methods on pointers (a panic is [None]), the [bitwise] tactic and
      the rewrite database [zbits] that decide equalities of bit
      expressions bit by bit, and the hint database [zuc] of bounds.
    - [Words]: [src/common.go] function by function, with the arithmetic
      modulo p = 2^31-1: cells are kept in [1, p] ([cell_ok]), [canon]
      picks that representative, [eqp] (notation [≅]) is congruence
      modulo p with [Proper] instances for setoid rewriting; [addM] is
      addition modulo p, [mulByPow2] multiplication by 2^k, [rot] a
      rotation, [l1] and [l2] the XOR of five rotations (bit by bit,
      with the standard's rotation amounts), [makeU32] the inverse of
      the byte split.
    - [Tables]: [S0], [S1], [D] (spec-modelled) and the facts the cipher
      uses: the S-boxes are permutations of the bytes, [D] is 15-bit.
    - [Lfsr]: the record [LFSR] and the methods [update],
      [WithInitialisationMode], [WithWorkMode] of [src/zuc.go]; [cells]
      is the abstract register and [feedback] the polynomial of the
      standard.
    - [Zuc]: the records [BRC], [F], [ZUC] (pointers become fields of one
      value threaded through the monad), [bitReorganization], [f_] with
      its S-box layer [sbox], [Initialization] (the 32 rounds
      [init_rounds]), [NextKey] split into [warmup] and [round],
      [GenerateKeystream] (the loop [gen_loop]) and [NewZUC]; the
      invariant [zuc_inv] and the step relation [reachable] (created by
      [NewZUC], advanced by [NextKey]); the known-answer tests of
      [src/zuc_test.go].
    - [Keystream]: the interface [KeystreamSource] between the generator
      and its clients: what [GenerateKeystream] promises on a usable
      state; the instance for [ZUC] discharges it with the loop lemmas
      of [Zuc].
    - [Eea3]: [NewEEA3] and its IV, [Encrypt] ([encrypt_ks] after the
      keystream is drawn: [outer_loop] and [inner_loop] over [xor_byte],
      the mask, [zero_loop]) and [Decrypt]; the byte-level reference
      [eea3_spec].
    - [Eia3]: [NewEIA3] and its IV, [getZi], [Hash] ([hash_loop] over the
      message bits, [hash_word], [hash_ks]) and [Verify]; the bit-level
      reference [ks_bit], [msg_bit], [tag_bit] of the standard.
    - [TestVectors]: the longer test sets of the EEA3 and EIA3 test files
      (the first sets sit beside the theorems that use them).

    ** What the theorems show

    - Refinement of the standard's arithmetic: both LFSR modes compute
      the recurrence over GF(2^31-1) ([WithWorkMode_spec],
      [WithInitialisationMode_spec]), bit reorganisation extracts the
      slices the standard names, the S-box layer is a permutation.
    - The generator as a state machine: every state [reachable] from
      [NewZUC] satisfies [zuc_inv] and [NextKey] from it does not panic
      (rule induction, [reachable_NextKey]); [GenerateKeystream]
      terminates with exactly the requested number of words, equals the
      pure schedule "one discarded warm-up round, then output rounds", and
      composes ([GenerateKeystream_app]); the error paths: a short key or
      IV panics, an uninitialised generator panics, extra key bytes are
      ignored; re-keying a used generator gives exactly a fresh one
      ([Initialization_reset]); the warm-up round is consumed by the first
      key and never repeated ([warmup_consumed], a liveness property).
    - EEA3: [Encrypt] equals the byte-level reference and returns a byte
      slice of the message's length, [Decrypt] inverts it from the same
      state up to the bits past [blength], two calls on one value use
      consecutive keystream segments ([Encrypt_sequence]), only the first
      [blength] bits of the message matter ([Encrypt_truncate]), a
      message shorter than [ceil(blength/8)] bytes panics
      ([Encrypt_short]), the IV layout, and the uint32 overflow of
      [(blength + 31) / 32].
    - EIA3: [Hash] does not panic in range and computes the tag of the
      standard bit by bit ([Hash_spec]); the tag is affine in the message
      ([Hash_flip]); [Verify] accepts exactly the tag [Hash] computes from
      the same state; only the first [blen] message bits matter
      ([Hash_prefix]) and a message shorter than [blen] bits panics
      ([Hash_short]); the IV layout; the uint32 overflow of [blen + 64].
    - Statefulness: [Encrypt_sequence] and [Verify_iff] show that a
      transform keeps drawing from its generator, so reusing an [EEA3]
      or [EIA3] value breaks decryption and verification; the files
      keep concrete instances of this beside the test vectors.
    - Every known-answer vector of the three test files is checked by
      evaluation, as a regression test of the model rather than as a
      property.

    ** Modelling conventions, bounds and fuel

    A Go [uint32] or [uint8] is a [Z] kept in range by the explicit wrap of
    the operation that can leave it ([u32 (a + b)], [u32 (Z.shiftl a k)],
    [u8 x] for a conversion [uint8(x)]); bitwise operators are [Z.land],
    [Z.lor], [Z.lxor], [Z.shiftr].  A slice is a [list Z]; an index out of
    range is a Go panic, modelled as [None].  Every loop is a [Fixpoint]
    on the number of iterations left, which is exactly the loop's trip
    count, so no result is lost to fuel: 32 for the initialisation loop,
    [length] for [GenerateKeystream], [keylength] for the outer loop of
    [Encrypt] and 4 for its inner loop (whose guard [j < 4] stops it
    anyway), [len(output) - length] for the zero fill, [blen] for the
    loop of [Hash].  The totality theorems hold for every input in range;
    the overflow theorems cover the rest of the uint32 range.

    ** Not modelled

    - The Go runtime: a panic ends the computation ([None]); [recover],
      which could observe the partially updated state a panic leaves, is
      not modelled.  Pointers are values: no two [EEA3]/[EIA3] objects
      share a [ZUC] in the sources, so aliasing is not observable.
    - [encoding/hex] and the testify harness of the tests: the hex strings
      of the test sets are transcribed as byte lists.
    - The tables [S0], [S1], [D] are not under [src/]: they come from the
      ZUC specification; the known-answer vectors check them. *)

From stdpp Require Export base list option sets.
From Stdlib Require Export ZArith Lia Btauto.

Open Scope Z_scope.

(** ** Go integer conversions *)

(** Wrap-around of a [uint32] result. *)
Definition u32 (x : Z) : Z := x mod 2 ^ 32.

(** Go's conversion [uint8(x)]. *)
Definition u8 (x : Z) : Z := x mod 2 ^ 8.

(** A value that fits in [w] bits. *)
Definition fits (w x : Z) : Prop := 0 <= x < 2 ^ w.

#[export] Instance fits_dec w x : Decision (fits w x).
Proof. unfold fits. apply _. Defined.

(** ** Go slices *)

(** [s[i]]: an index outside the slice panics. *)
Definition load (s : list Z) (i : Z) : option Z :=
  if decide (0 <= i) then s !! Z.to_nat i else None.

(** [s[i] = v]: the same bounds check, then an update in place. *)
Definition store (s : list Z) (i v : Z) : option (list Z) :=
  if decide (0 <= i < Z.of_nat (length s)) then Some (<[Z.to_nat i := v]> s)
  else None.

(** [encoding/binary.BigEndian.PutUint32] on a 4-byte slice. *)
Definition PutUint32 (v : Z) : list Z :=
  [u8 (Z.shiftr v 24); u8 (Z.shiftr v 16); u8 (Z.shiftr v 8); u8 v].

(** ** The state-and-panic monad of Go methods on a pointer receiver *)

Definition Go (S A : Type) : Type := S -> option (A * S).

Definition go_ret {S A} (a : A) : Go S A := fun s => Some (a, s).

Definition go_bind {S A B} (m : Go S A) (k : A -> Go S B) : Go S B :=
  fun s => match m s with Some (a, s') => k a s' | None => None end.

Definition go_panic {S A} : Go S A := fun _ => None.

Declare Scope go_scope.
Delimit Scope go_scope with go.
Notation "'let*' x := m 'in' k" := (go_bind m (fun x => k))
  (at level 100, x name, m at level 100, k at level 200) : go_scope.

(** ** Bit-level reasoning *)

Create Rewrite HintDb zbits.

Lemma testbit_u32 x i :
  0 <= i -> Z.testbit (u32 x) i = (i <? 32) && Z.testbit x i.
Proof. intros; unfold u32; rewrite Z.testbit_mod_pow2 by lia; reflexivity. Qed.

Lemma testbit_u8 x i :
  0 <= i -> Z.testbit (u8 x) i = (i <? 8) && Z.testbit x i.
Proof. intros; unfold u8; rewrite Z.testbit_mod_pow2 by lia; reflexivity. Qed.

Lemma testbit_small w x i :
  fits w x -> w <= i -> Z.testbit x i = false.
Proof.
  unfold fits; intros Hx Hi.
  destruct (Z.lt_ge_cases w 0) as [Hw|Hw].
  { rewrite Z.pow_neg_r in Hx by lia; lia. }
  rewrite <- (Z.mod_small x (2 ^ w)) by lia.
  apply Z.mod_pow2_bits_high; lia.
Qed.

(** The masks that appear as literals in the code. *)
Lemma testbit_mask w c i :
  c = Z.ones w -> 0 <= w -> 0 <= i -> Z.testbit c i = (i <? w).
Proof. intros -> Hw Hi. rewrite Z.testbit_ones by lia. destruct (Z.leb_spec 0 i); [reflexivity | lia]. Qed.

Lemma testbit_255 i : 0 <= i -> Z.testbit 255 i = (i <? 8).
Proof. apply testbit_mask; reflexivity || lia. Qed.
Lemma testbit_65535 i : 0 <= i -> Z.testbit 65535 i = (i <? 16).
Proof. apply testbit_mask; reflexivity || lia. Qed.
Lemma testbit_2147483647 i : 0 <= i -> Z.testbit 2147483647 i = (i <? 31).
Proof. apply testbit_mask; reflexivity || lia. Qed.



(** A mask [Z.shiftl (Z.ones w) s] written as a literal. *)
Lemma testbit_shifted_ones c w s i :
  c = Z.shiftl (Z.ones w) s -> 0 <= w -> 0 <= s -> 0 <= i ->
  Z.testbit c i = (s <=? i) && (i <? s + w).
Proof.
  intros -> Hw Hs Hi. rewrite Z.shiftl_spec, Z.testbit_ones by lia.
  destruct (Z.leb_spec 0 (i - s)), (Z.leb_spec s i), (Z.ltb_spec (i - s) w),
    (Z.ltb_spec i (s + w)); simpl; lia.
Qed.

Lemma testbit_2147450880 i : 0 <= i -> Z.testbit 2147450880 i = (15 <=? i) && (i <? 15 + 16).
Proof. apply testbit_shifted_ones; reflexivity || lia. Qed.
Lemma testbit_252 i : 0 <= i -> Z.testbit 252 i = (2 <=? i) && (i <? 2 + 6).
Proof. apply testbit_shifted_ones; reflexivity || lia. Qed.
Lemma testbit_248 i : 0 <= i -> Z.testbit 248 i = (3 <=? i) && (i <? 3 + 5).
Proof. apply testbit_shifted_ones; reflexivity || lia. Qed.

Lemma testbit_1 i : 0 <= i -> Z.testbit 1 i = (i =? 0).
Proof. intros Hi. change 1 with (2 ^ 0). rewrite Z.pow2_bits_eqb by lia. apply Z.eqb_sym. Qed.

#[export] Hint Rewrite testbit_1 Z.bits_0 using lia : zbits.

#[export] Hint Rewrite testbit_255 testbit_65535 testbit_2147483647
  testbit_2147450880 testbit_252 testbit_248 using lia : zbits.

#[export] Hint Rewrite testbit_u32 testbit_u8 Z.lxor_spec Z.land_spec Z.lor_spec
  Z.shiftr_spec Z.shiftl_spec Z.testbit_mod_pow2 Z.testbit_ones
  using lia : zbits.

(** Case analysis on the comparisons [i <? c] that [zbits] leaves. *)
Ltac split_bit_cases :=
  repeat match goal with
    | |- context [?a <? ?b] =>
        let E := fresh "E" in destruct (Z.ltb_spec a b) as [E|E]
    | |- context [?a <=? ?b] =>
        let E := fresh "E" in destruct (Z.leb_spec a b) as [E|E]
    | |- context [?a =? ?b] =>
        let E := fresh "E" in destruct (Z.eqb_spec a b) as [E|E]
    end.

(** Prove an equation of bit expressions one bit at a time. *)
Ltac clear_high_bits :=
  repeat match goal with
    | H : fits ?w ?x |- context [Z.testbit ?x ?j] =>
        rewrite (testbit_small w x j H) by lia
    end.

(** Make equal bit indices of the same value syntactically equal, so
    that they are the same atom for [btauto]. *)
Lemma testbit_index_eq x j j' : j = j' -> Z.testbit x j = Z.testbit x j'.
Proof. intros ->. reflexivity. Qed.

Ltac normalize_index :=
  repeat match goal with
    | |- context [Z.testbit ?x ?j1] =>
        match goal with
        | |- context [Z.testbit x ?j2] =>
            tryif constr_eq j1 j2 then fail
            else rewrite (testbit_index_eq x j2 j1) by lia
        end
    end.

(** Split on the sign of a bit index that [lia] cannot place. *)
Ltac split_index_signs :=
  repeat match goal with
    | |- context [Z.testbit _ ?j] =>
        tryif (assert (0 <= j) by lia) then fail else
        tryif (assert (j < 0) by lia) then fail else
        destruct (Z.lt_ge_cases j 0)
    end.

(** Clear the bits at negative indices. *)
Ltac clear_neg_bits :=
  repeat match goal with
    | |- context [Z.testbit ?x ?j] => rewrite (Z.testbit_neg_r x j) by lia
    end.

Ltac bitwise :=
  apply Z.bits_inj'; intros ?i ?Hi;
  repeat progress (autorewrite with zbits; split_bit_cases; split_index_signs;
                   clear_neg_bits);
  clear_high_bits; normalize_index;
  try btauto.

(** Decide a proposition about concrete values by evaluation. *)
Ltac decide_concrete := apply (bool_decide_unpack _); vm_compute; reflexivity.

(** ** Shared integer lemmas *)

Create HintDb zuc discriminated.

Lemma fits_u32 x : fits 32 (u32 x).
Proof. unfold fits, u32; apply Z.mod_pos_bound; lia. Qed.

Lemma fits_u8 x : fits 8 (u8 x).
Proof. unfold fits, u8; apply Z.mod_pos_bound; lia. Qed.

Lemma u32_small x : fits 32 x -> u32 x = x.
Proof. unfold fits, u32; intros; apply Z.mod_small; lia. Qed.

Lemma u8_small x : fits 8 x -> u8 x = x.
Proof. unfold fits, u8; intros; apply Z.mod_small; lia. Qed.

Lemma fits_mono w w' x : w <= w' -> fits w x -> fits w' x.
Proof.
  unfold fits; intros Hw [H0 H1]; split; [lia|].
  eapply Z.lt_le_trans; [exact H1|]. apply Z.pow_le_mono_r; lia.
Qed.

(** A value is in [w] bits exactly when its bits from [w] up are clear. *)
Lemma fits_bits w x :
  0 <= w -> 0 <= x -> (forall i, w <= i -> Z.testbit x i = false) -> fits w x.
Proof.
  intros Hw Hx Hb. split; [lia|].
  destruct (Z.eq_dec x 0) as [->|Hnz]; [apply Z.pow_pos_nonneg; lia|].
  destruct (Z.lt_ge_cases x (2 ^ w)) as [|Hge]; [assumption|].
  exfalso. pose proof (Z.log2_spec x ltac:(lia)) as [Hl _].
  assert (w <= Z.log2 x).
  { apply Z.log2_le_pow2; lia. }
  pose proof (Z.bit_log2 x ltac:(lia)). rewrite Hb in *; [discriminate | lia].
Qed.

(** Bitwise operations stay within [w] bits. *)
Lemma fits_lxor w a b : 0 <= w -> fits w a -> fits w b -> fits w (Z.lxor a b).
Proof.
  intros Hw Ha Hb. apply fits_bits; [lia| |].
  - apply Z.lxor_nonneg; unfold fits in *; lia.
  - intros i Hi; rewrite Z.lxor_spec, (testbit_small w a), (testbit_small w b); auto.
Qed.

Lemma fits_lor w a b : 0 <= w -> fits w a -> fits w b -> fits w (Z.lor a b).
Proof.
  intros Hw Ha Hb. apply fits_bits; [lia| |].
  - apply Z.lor_nonneg; unfold fits in *; lia.
  - intros i Hi; rewrite Z.lor_spec, (testbit_small w a), (testbit_small w b); auto.
Qed.

Lemma fits_land_r w a b : 0 <= w -> 0 <= a -> fits w b -> fits w (Z.land a b).
Proof.
  intros Hw Ha Hb. apply fits_bits; [lia| |].
  - apply Z.land_nonneg; lia.
  - intros i Hi; rewrite Z.land_spec, (testbit_small w b); auto using andb_false_r.
Qed.

Lemma fits_land_l w a b : 0 <= w -> fits w a -> fits w (Z.land a b).
Proof.
  intros Hw Ha. rewrite Z.land_comm. apply fits_bits; [lia| |].
  - apply Z.land_nonneg. right. unfold fits in Ha. lia.
  - intros i Hi. rewrite Z.land_spec, (testbit_small w a); auto using andb_false_r.
Qed.

Lemma fits_shiftr w a k :
  0 <= k -> fits w a -> fits w (Z.shiftr a k).
Proof.
  unfold fits; intros Hk [H0 H1]. rewrite Z.shiftr_div_pow2 by lia. split.
  - apply Z.div_pos; [lia | apply Z.pow_pos_nonneg; lia].
  - apply Z.div_lt_upper_bound; [apply Z.pow_pos_nonneg; lia|].
    assert (1 <= 2 ^ k) by (apply Z.pow_le_mono_r with (a := 2) in Hk; simpl in *; lia).
    nia.
Qed.

Lemma fits_div w s x :
  0 <= s <= w -> fits w x -> fits (w - s) (x / 2 ^ s).
Proof.
  unfold fits; intros Hs [H0 H1].
  assert (0 < 2 ^ s) by (apply Z.pow_pos_nonneg; lia).
  split; [apply Z.div_pos; lia|].
  apply Z.div_lt_upper_bound; [lia|].
  rewrite <- Z.pow_add_r by lia. replace (s + (w - s)) with w by lia. lia.
Qed.

Lemma fits_mod w x : 0 <= w -> fits w (x mod 2 ^ w).
Proof. unfold fits; intros; apply Z.mod_pos_bound, Z.pow_pos_nonneg; lia. Qed.

#[export] Hint Resolve fits_u32 fits_u8 fits_lxor fits_lor fits_land_r
  fits_shiftr : zuc.

(** Disjoint bit fields: [Z.lor] of a shifted high part and a low part is
    their sum. *)
Lemma lor_shift_add hi lo k :
  0 <= k -> fits k lo -> Z.lor (hi * 2 ^ k) lo = hi * 2 ^ k + lo.
Proof.
  intros Hk Hlo. symmetry; apply Z.add_nocarry_lor.
  apply Z.bits_inj'; intros i Hi. rewrite Z.land_spec, Z.bits_0.
  destruct (Z.lt_ge_cases i k).
  - rewrite Z.mul_pow2_bits_low by lia; reflexivity.
  - rewrite (testbit_small k lo) by auto. apply andb_false_r.
Qed.

(** ** Go slice lemmas *)

Lemma load_lookup (s : list Z) (i : nat) : load s (Z.of_nat i) = s !! i.
Proof.
  unfold load. rewrite decide_True by lia. f_equal; lia.
Qed.

Lemma store_lookup (s : list Z) (i : nat) v :
  (i < length s)%nat -> store s (Z.of_nat i) v = Some (<[i := v]> s).
Proof.
  intros H. unfold store. rewrite decide_True by lia. do 2 f_equal; lia.
Qed.

Lemma u32_wrap x : 2 ^ 32 <= x < 2 ^ 33 -> u32 x = x - 2 ^ 32.
Proof. intros Hx. unfold u32. symmetry. apply Z.mod_unique with 1; lia. Qed.

Lemma load_Some (s : list Z) i : 0 <= i < Z.of_nat (length s) -> is_Some (load s i).
Proof.
  intros Hi. unfold load. rewrite decide_True by lia. apply lookup_lt_is_Some_2. lia.
Qed.

Lemma load_nth (s : list Z) i :
  0 <= i < Z.of_nat (length s) -> load s i = Some (nth (Z.to_nat i) s 0).
Proof.
  intros Hi. unfold load. rewrite decide_True by lia.
  destruct (lookup_lt_is_Some_2 s (Z.to_nat i)) as [x Hx]; [lia|].
  by rewrite (nth_lookup_Some _ _ _ _ Hx), Hx.
Qed.

Lemma load_None (s : list Z) i : Z.of_nat (length s) <= i -> load s i = None.
Proof.
  intros Hi. unfold load. rewrite decide_True by lia. apply lookup_ge_None_2. lia.
Qed.

Lemma fits_PutUint32 v : Forall (fits 8) (PutUint32 v).
Proof. unfold PutUint32. repeat (apply Forall_cons_2; [apply fits_u8|]). apply Forall_nil_2. Qed.

Lemma length_PutUint32 v : length (PutUint32 v) = 4%nat.
Proof. reflexivity. Qed.

(** ** Option and list lemmas *)

(** [mapM] of a function defined on every element succeeds. *)
Lemma mapM_total {A B} (g : A -> option B) (P : B -> Prop) (l : list A) :
  (forall x, x ∈ l -> exists y, g x = Some y /\ P y) ->
  exists ys, mapM g l = Some ys /\ Forall P ys /\ length ys = length l.
Proof.
  induction l as [|x l IH]; intros H; [exists []; simpl; auto|].
  destruct (H x ltac:(set_solver)) as (y & Hy & Py).
  destruct IH as (ys & Hys & Pys & Lys); [intros; apply H; set_solver|].
  exists (y :: ys). simpl. rewrite Hy, Hys. simpl. auto.
Qed.

(** [mapM] panics as soon as one element does. *)
Lemma mapM_None_elem {A B} (g : A -> option B) (l : list A) x :
  x ∈ l -> g x = None -> mapM g l = None.
Proof.
  induction l as [|y l IH]; intros Hx Hg; [set_solver|].
  simpl. apply elem_of_cons in Hx as [->|Hx].
  - by rewrite Hg.
  - destruct (g y); simpl; [|done]. by rewrite IH.
Qed.

(** [mapM] only depends on the values of its function on the list. *)
Lemma mapM_ext_in {A B} (g h : A -> option B) (l : list A) :
  (forall x, x ∈ l -> g x = h x) -> mapM g l = mapM h l.
Proof.
  induction l as [|y l IH]; intros H; [done|]. simpl.
  rewrite H by set_solver. by rewrite IH by (intros; apply H; set_solver).
Qed.
