(* ===== verification/Words.v ===== *)
(** * Words: the 32-bit helpers of [src/common.go]

    Each Go function is one definition over [Z] with the wrap-around of
    its [uint32]/[uint8] operations written out.  The theorems relate the
    bit-level code to the arithmetic it implements: [addM] and
    [mulByPow2] are addition and multiplication by 2^k in GF(p),
    p = 2^31-1, on the representatives [1, p] that ZUC uses for its LFSR
    cells ([canon]); [rot] is a 32-bit rotation; [l1] and [l2] are
    XOR-linear; [makeU32] and [PutUint32] are inverse byte orders. *)

From S2P Require Import Prelude.

(** ** [src/common.go] *)

(** [type KeyDirection uint32]: a [uint32] value, and its two constants. *)
Definition KeyDirection : Type := Z.
Definition KEY_UPLINK : KeyDirection := 0.
Definition KEY_DOWNLINK : KeyDirection := 1.

(** [addM]: [c := a + b; return (c & 0x7fffffff) + (c >> 31)]. *)
Definition addM (a b : Z) : Z :=
  let c := u32 (a + b) in
  u32 (Z.land c 0x7fffffff + Z.shiftr c 31).

(** [mulByPow2]: [((x << k) | (x >> (31 - k))) & 0x7FFFFFFF], with [k] a
    [uint8], so that [31 - k] is computed in 8 bits. *)
Definition mulByPow2 (x k : Z) : Z :=
  Z.land (Z.lor (u32 (Z.shiftl x k)) (Z.shiftr x (u8 (31 - k)))) 0x7FFFFFFF.

(** [rot]: [(a << k) | (a >> (32 - k))]. *)
Definition rot (a k : Z) : Z :=
  Z.lor (u32 (Z.shiftl a k)) (Z.shiftr a (u8 (32 - k))).

(** [makeU32]: four bytes, most significant first. *)
Definition makeU32 (a b c d : Z) : Z :=
  Z.lor (Z.lor (Z.lor (u32 (Z.shiftl a 24)) (u32 (Z.shiftl b 16)))
               (u32 (Z.shiftl c 8))) d.

(** [makeU31]: key byte, 15-bit constant, IV byte. *)
Definition makeU31 (a b c : Z) : Z :=
  Z.lor (Z.lor (u32 (Z.shiftl a 23)) (u32 (Z.shiftl b 8))) c.

(** [l1] and [l2]: the linear transforms of the F function ([^] is left
    associative in Go). *)
Definition l1 (x : Z) : Z :=
  Z.lxor (Z.lxor (Z.lxor (Z.lxor x (rot x 2)) (rot x 10)) (rot x 18)) (rot x 24).

Definition l2 (x : Z) : Z :=
  Z.lxor (Z.lxor (Z.lxor (Z.lxor x (rot x 8)) (rot x 14)) (rot x 22)) (rot x 30).

(** ** GF(p) on the representatives [1, p]

    The ZUC standard keeps every LFSR cell in [1, p], the value [p] standing
    for zero; [canon v] is the representative of [v mod p]. *)

Definition p : Z := 2 ^ 31 - 1.

Definition canon (v : Z) : Z :=
  let r := v mod p in if Z.eqb r 0 then p else r.

(** A cell value as the standard has it. *)
Definition cell_ok (x : Z) : Prop := 1 <= x <= p.

#[export] Instance cell_ok_dec x : Decision (cell_ok x).
Proof. unfold cell_ok. apply _. Defined.

(** Congruence modulo p, the equality of GF(p) on [Z]. *)
Definition eqp (a b : Z) : Prop := a mod p = b mod p.

Declare Scope zuc_scope.
Delimit Scope zuc_scope with zuc.
Infix "≅" := eqp (at level 70) : zuc_scope.
Open Scope zuc_scope.

#[export] Instance eqp_equiv : Equivalence eqp.
Proof. split; unfold eqp; [intros ?|intros ???|intros ?????]; congruence. Qed.

#[export] Instance eqp_add : Proper (eqp ==> eqp ==> eqp) Z.add.
Proof. intros a a' Ha b b' Hb. unfold eqp in *. rewrite Z.add_mod, Ha, Hb, <- Z.add_mod; unfold p; lia. Qed.

#[export] Instance eqp_mul : Proper (eqp ==> eqp ==> eqp) Z.mul.
Proof. intros a a' Ha b b' Hb. unfold eqp in *. rewrite Z.mul_mod, Ha, Hb, <- Z.mul_mod; unfold p; lia. Qed.

(** ** Helper lemmas *)

Lemma canon_range v : cell_ok (canon v).
Proof.
  unfold canon, cell_ok, p.
  destruct (Z.eqb_spec (v mod (2 ^ 31 - 1)) 0); [lia|].
  pose proof (Z.mod_pos_bound v (2 ^ 31 - 1) ltac:(lia)). lia.
Qed.

(** The representative of a residue in [1, p] is unique. *)
Lemma canon_unique y v : cell_ok y -> y mod p = v mod p -> y = canon v.
Proof.
  unfold canon, cell_ok; intros Hy Hm. rewrite <- Hm.
  destruct (Z.eq_dec y p) as [->|Hne].
  - rewrite Z.mod_same by (unfold p; lia). reflexivity.
  - rewrite Z.mod_small by lia. destruct (Z.eqb_spec y 0); lia.
Qed.

Lemma canon_mod v : canon v mod p = v mod p.
Proof.
  unfold canon. destruct (Z.eqb_spec (v mod p) 0) as [E|E].
  - rewrite E, Z.mod_same; unfold p; lia.
  - apply Z.mod_mod. unfold p; lia.
Qed.

Lemma canon_eqp v : canon v ≅ v.
Proof. apply canon_mod. Qed.

Lemma eqp_canon a b : a ≅ b -> canon a = canon b.
Proof. intros H. apply canon_unique; [apply canon_range|]. rewrite canon_mod. exact H. Qed.

Lemma cell_ok_fits x : cell_ok x -> fits 31 x.
Proof. unfold cell_ok, fits, p; lia. Qed.

#[export] Hint Resolve canon_range cell_ok_fits : zuc.

(** 2^31 is 1 modulo p: the fold of [addM] and the rotation of
    [mulByPow2] both rest on it. *)
Lemma fold_mod_p q r : (q * 2 ^ 31 + r) mod p = (q + r) mod p.
Proof.
  replace (q * 2 ^ 31 + r) with ((q + r) + q * p) by (unfold p; ring).
  apply Z.mod_add. unfold p; lia.
Qed.

(** [mulByPow2] as arithmetic: the low [31 - k] bits move up by [k], the
    high [k] bits come round to the bottom. *)
Lemma mulByPow2_split x k :
  fits 31 x -> 0 <= k <= 31 ->
  mulByPow2 x k = (x mod 2 ^ (31 - k)) * 2 ^ k + x / 2 ^ (31 - k).
Proof.
  intros Hx Hk. unfold mulByPow2.
  rewrite (u8_small (31 - k)) by (unfold fits; lia).
  rewrite <- lor_shift_add by (try lia; replace k with (31 - (31 - k)) at 1 by lia;
                                apply fits_div; auto; lia).
  rewrite <- Z.shiftl_mul_pow2, <- Z.shiftr_div_pow2 by lia.
  bitwise.
Qed.

Lemma rot_split a k :
  fits 32 a -> 0 <= k <= 32 ->
  rot a k = (a mod 2 ^ (32 - k)) * 2 ^ k + a / 2 ^ (32 - k).
Proof.
  intros Ha Hk. unfold rot.
  rewrite (u8_small (32 - k)) by (unfold fits; lia).
  rewrite <- lor_shift_add by (try lia; replace k with (32 - (32 - k)) at 1 by lia;
                                apply fits_div; auto; lia).
  rewrite <- Z.shiftl_mul_pow2, <- Z.shiftr_div_pow2 by lia.
  bitwise.
Qed.

(** A rotation of [w] bits split at [s]: its value and its residue. *)
Lemma rotation_bounds w s x :
  0 <= s <= w -> fits w x ->
  fits w ((x mod 2 ^ s) * 2 ^ (w - s) + x / 2 ^ s)
  /\ (x * 2 ^ (w - s)) = (x / 2 ^ s) * 2 ^ w + (x mod 2 ^ s) * 2 ^ (w - s)
  /\ (x <> 0 -> (x mod 2 ^ s) * 2 ^ (w - s) + x / 2 ^ s <> 0).
Proof.
  intros Hs Hx.
  pose proof (fits_div w s x Hs Hx) as Hq. unfold fits in *.
  assert (HB : 0 < 2 ^ s) by (apply Z.pow_pos_nonneg; lia).
  assert (HA : 0 < 2 ^ (w - s)) by (apply Z.pow_pos_nonneg; lia).
  assert (HAB : 2 ^ w = 2 ^ s * 2 ^ (w - s))
    by (rewrite <- Z.pow_add_r by lia; f_equal; lia).
  pose proof (Z.mod_pos_bound x (2 ^ s) HB).
  pose proof (Z.div_mod x (2 ^ s) ltac:(lia)).
  split; [|split]; [nia | rewrite HAB; nia | nia].
Qed.

(** ** Theorems *)

(** [addM] is the addition of GF(p) on the cell representatives: for a
    cell [a] and any [b] in [0, p] (the six LFSR terms and the
    initialisation input [w >> 1]), the result is the representative of
    [a + b]. *)
Lemma addM_canon a b : cell_ok a -> 0 <= b <= p -> addM a b = canon (a + b).
Proof.
  unfold cell_ok, p; intros Ha Hb. unfold addM.
  rewrite (u32_small (a + b)) by (unfold fits; lia).
  change 2147483647 with (Z.ones 31).
  rewrite Z.land_ones, Z.shiftr_div_pow2 by lia.
  pose proof (Z.div_mod (a + b) (2 ^ 31) ltac:(lia)).
  pose proof (Z.mod_pos_bound (a + b) (2 ^ 31) ltac:(lia)).
  assert (0 <= (a + b) / 2 ^ 31 <= 1).
  { split; [apply Z.div_pos; lia|].
    apply Z.lt_succ_r, Z.div_lt_upper_bound; lia. }
  rewrite u32_small by (unfold fits; lia).
  apply canon_unique; [unfold cell_ok, p; lia|].
  set (q := (a + b) / 2 ^ 31) in *. set (r := (a + b) mod 2 ^ 31) in *.
  rewrite H, (Z.mul_comm (2 ^ 31) q), fold_mod_p. f_equal; lia.
Qed.

(** [mulByPow2 x k] is the representative of [x * 2^k]: the 31-bit rotation
    computes the multiplication by a power of two in GF(p). *)
Lemma mulByPow2_canon x k :
  cell_ok x -> 0 <= k <= 31 -> mulByPow2 x k = canon (x * 2 ^ k).
Proof.
  intros Hx Hk. rewrite mulByPow2_split by auto with zuc.
  destruct (rotation_bounds 31 (31 - k) x ltac:(lia) ltac:(auto with zuc))
    as (Hf & He & Hz).
  replace (31 - (31 - k)) with k in * by lia.
  apply canon_unique.
  - unfold cell_ok, fits, p in *. specialize (Hz ltac:(lia)). lia.
  - rewrite He, fold_mod_p. f_equal; lia.
Qed.

Lemma fits_rot a k : fits 32 a -> 0 <= k <= 32 -> fits 32 (rot a k).
Proof.
  intros Ha Hk. rewrite rot_split by auto.
  destruct (rotation_bounds 32 (32 - k) a ltac:(lia) Ha) as [Hf _].
  replace (32 - (32 - k)) with k in Hf by lia. exact Hf.
Qed.

(** On a 32-bit word the two halves of [rot] do not overlap, so the [|] of
    the code is also an XOR. *)
Lemma rot_xor_form a k :
  fits 32 a -> 0 <= k <= 32 ->
  rot a k = Z.lxor (u32 (Z.shiftl a k)) (Z.shiftr a (32 - k)).
Proof.
  intros Ha Hk. unfold rot. rewrite (u8_small (32 - k)) by (unfold fits; lia).
  bitwise; destruct (Z.lt_ge_cases i k);
    autorewrite with zbits; repeat (rewrite Z.testbit_neg_r by lia);
    clear_high_bits; btauto.
Qed.

Lemma rot_lxor a b k :
  fits 32 a -> fits 32 b -> 0 <= k <= 32 ->
  rot (Z.lxor a b) k = Z.lxor (rot a k) (rot b k).
Proof.
  intros Ha Hb Hk. rewrite !rot_xor_form by auto with zuc lia. bitwise.
Qed.

Lemma fits_l1 x : fits 32 x -> fits 32 (l1 x).
Proof.
  intros Hx. unfold l1.
  repeat apply fits_lxor; try lia; auto using fits_rot with lia.
Qed.

Lemma fits_l2 x : fits 32 x -> fits 32 (l2 x).
Proof.
  intros Hx. unfold l2.
  repeat apply fits_lxor; try lia; auto using fits_rot with lia.
Qed.

#[export] Hint Resolve fits_rot fits_l1 fits_l2 : zuc.

(** C31: [rot a k] moves bit [i] of a 32-bit word to bit [(i + k) mod 32]. *)
Theorem rot_testbit a k i :
  fits 32 a -> 0 <= k <= 32 -> 0 <= i < 32 ->
  Z.testbit (rot a k) ((i + k) mod 32) = Z.testbit a i.
Proof.
  intros Ha Hk Hi. unfold rot.
  rewrite (u8_small (32 - k)) by (unfold fits; lia).
  destruct (Z.lt_ge_cases (i + k) 32).
  - rewrite Z.mod_small by lia. autorewrite with zbits.
    rewrite (testbit_small 32 a (i + k + (32 - k))) by (auto; lia).
    replace (i + k - k) with i by lia.
    destruct (Z.ltb_spec (i + k) 32); [btauto | lia].
  - replace ((i + k) mod 32) with (i + k - 32)
      by (rewrite <- (Z.mod_small (i + k - 32) 32) by lia;
          rewrite <- (Z.mod_add _ 1) by lia; f_equal; lia).
    autorewrite with zbits. rewrite Z.testbit_neg_r by lia.
    replace (i + k - 32 + (32 - k)) with i by lia.
    destruct (Z.ltb_spec (i + k - 32) 32); [btauto | lia].
Qed.

(** Bit [i] of [rot a k] is bit [(i - k) mod 32] of [a]. *)
Lemma rot_bit a k i :
  fits 32 a -> 0 <= k <= 32 -> 0 <= i < 32 ->
  Z.testbit (rot a k) i = Z.testbit a ((i - k) mod 32).
Proof.
  intros Ha Hk Hi. unfold rot.
  rewrite (u8_small (32 - k)) by (unfold fits; lia). autorewrite with zbits.
  destruct (Z.ltb_spec i k).
  - rewrite Z.testbit_neg_r by lia.
    replace ((i - k) mod 32) with (i + (32 - k))
      by (rewrite <- (Z.mod_add _ 1) by lia; rewrite Z.mod_small; lia).
    destruct (Z.ltb_spec (i + (32 - k)) 32); [btauto | lia].
  - rewrite (Z.mod_small (i - k)) by lia.
    rewrite (testbit_small 32 a (i + (32 - k))) by (auto; lia).
    destruct (Z.ltb_spec i 32); [btauto | lia].
Qed.

(** C34: [l1] is linear over XOR on 32-bit words: the diffusion layer
    of F is a linear map of GF(2)^32. *)
Theorem l1_lxor a b :
  fits 32 a -> fits 32 b -> l1 (Z.lxor a b) = Z.lxor (l1 a) (l1 b).
Proof. intros. unfold l1. rewrite !rot_lxor by (auto; lia). bitwise. Qed.

(** The same for [l2]. *)
Theorem l2_lxor a b :
  fits 32 a -> fits 32 b -> l2 (Z.lxor a b) = Z.lxor (l2 a) (l2 b).
Proof. intros. unfold l2. rewrite !rot_lxor by (auto; lia). bitwise. Qed.

(** C32: Bit [i] of [l1 x] is the XOR of the bits [i], [i - 2],
    [i - 10], [i - 18] and [i - 24] (mod 32) of [x]: [l1] is
    [x ^ x<<<2 ^ x<<<10 ^ x<<<18 ^ x<<<24]. *)
Theorem l1_bits x i :
  fits 32 x -> 0 <= i < 32 ->
  Z.testbit (l1 x) i
  = xorb (xorb (xorb (xorb (Z.testbit x i) (Z.testbit x ((i - 2) mod 32)))
                     (Z.testbit x ((i - 10) mod 32)))
               (Z.testbit x ((i - 18) mod 32)))
         (Z.testbit x ((i - 24) mod 32)).
Proof. intros Hx Hi. unfold l1. rewrite !Z.lxor_spec, !rot_bit by (auto; lia). reflexivity. Qed.

(** C33: Bit [i] of [l2 x] is the XOR of the bits [i], [i - 8],
    [i - 14], [i - 22] and [i - 30] (mod 32) of [x]: [l2] is
    [x ^ x<<<8 ^ x<<<14 ^ x<<<22 ^ x<<<30]. *)
Theorem l2_bits x i :
  fits 32 x -> 0 <= i < 32 ->
  Z.testbit (l2 x) i
  = xorb (xorb (xorb (xorb (Z.testbit x i) (Z.testbit x ((i - 8) mod 32)))
                     (Z.testbit x ((i - 14) mod 32)))
               (Z.testbit x ((i - 22) mod 32)))
         (Z.testbit x ((i - 30) mod 32)).
Proof. intros Hx Hi. unfold l2. rewrite !Z.lxor_spec, !rot_bit by (auto; lia). reflexivity. Qed.

(** [makeU32] and [PutUint32] are inverse byte orders. *)
Theorem PutUint32_makeU32 a b c d :
  fits 8 a -> fits 8 b -> fits 8 c -> fits 8 d ->
  PutUint32 (makeU32 a b c d) = [a; b; c; d].
Proof.
  intros Ha Hb Hc Hd. unfold PutUint32, makeU32.
  repeat f_equal; bitwise.
Qed.

(** C35: Splitting a 32-bit word into its four bytes, most significant
    first, and joining them with [makeU32] gives the word back. *)
Theorem makeU32_PutUint32 x :
  fits 32 x ->
  makeU32 (u8 (Z.shiftr x 24)) (u8 (Z.shiftr x 16)) (u8 (Z.shiftr x 8)) (u8 x) = x.
Proof. intros Hx. unfold makeU32. bitwise. Qed.

Lemma fits_makeU32 a b c d :
  fits 8 a -> fits 8 b -> fits 8 c -> fits 8 d -> fits 32 (makeU32 a b c d).
Proof.
  intros. unfold makeU32.
  repeat apply fits_lor; auto with zuc; try lia. eapply fits_mono; [|eassumption]; lia.
Qed.

#[export] Hint Resolve fits_makeU32 : zuc.

(** [makeU31] packs its three fields side by side. *)
Theorem makeU31_fields a b c :
  fits 8 a -> fits 15 b -> fits 8 c ->
  makeU31 a b c = a * 2 ^ 23 + b * 2 ^ 8 + c.
Proof.
  intros Ha Hb Hc.
  assert (E : makeU31 a b c = Z.lor (Z.lor (a * 2 ^ 15) b * 2 ^ 8) c).
  { unfold makeU31. rewrite <- !Z.shiftl_mul_pow2 by lia. bitwise. }
  rewrite E, (lor_shift_add a b 15), lor_shift_add by auto with lia. ring.
Qed.

Lemma cell_le_p x : cell_ok x -> 0 <= x <= p.
Proof. unfold cell_ok; lia. Qed.

Lemma addM_cell a b : cell_ok a -> 0 <= b <= p -> cell_ok (addM a b).
Proof. intros. rewrite addM_canon by auto. apply canon_range. Qed.

Lemma mulByPow2_cell x k : cell_ok x -> 0 <= k <= 31 -> cell_ok (mulByPow2 x k).
Proof. intros. rewrite mulByPow2_canon by auto. apply canon_range. Qed.

#[export] Hint Resolve cell_le_p addM_cell mulByPow2_cell : zuc.
#[export] Hint Extern 1 (_ <= _ <= _) => lia : zuc.

(** ** Witnesses *)

Lemma rot_testbit_witness : Z.testbit (rot 0x80000001 8) ((31 + 8) mod 32) = Z.testbit 0x80000001 31.
Proof. apply rot_testbit; [unfold fits; lia | lia | lia]. Defined.

Lemma l1_lxor_witness : l1 (Z.lxor 0x12345678 0x9abcdef0) = Z.lxor (l1 0x12345678) (l1 0x9abcdef0).
Proof. apply l1_lxor; unfold fits; lia. Defined.

Lemma l1_bits_witness :
  Z.testbit (l1 0x00000001) 2
  = xorb (xorb (xorb (xorb (Z.testbit 0x00000001 2) (Z.testbit 0x00000001 ((2 - 2) mod 32)))
                     (Z.testbit 0x00000001 ((2 - 10) mod 32)))
               (Z.testbit 0x00000001 ((2 - 18) mod 32)))
         (Z.testbit 0x00000001 ((2 - 24) mod 32)).
Proof. apply l1_bits; [unfold fits; lia | lia]. Defined.

Lemma l2_bits_witness :
  Z.testbit (l2 0x00000001) 30
  = xorb (xorb (xorb (xorb (Z.testbit 0x00000001 30) (Z.testbit 0x00000001 ((30 - 8) mod 32)))
                     (Z.testbit 0x00000001 ((30 - 14) mod 32)))
               (Z.testbit 0x00000001 ((30 - 22) mod 32)))
         (Z.testbit 0x00000001 ((30 - 30) mod 32)).
Proof. apply l2_bits; [unfold fits; lia | lia]. Defined.

Lemma makeU32_PutUint32_witness :
  makeU32 (u8 (Z.shiftr 0xdeadbeef 24)) (u8 (Z.shiftr 0xdeadbeef 16)) (u8 (Z.shiftr 0xdeadbeef 8))
    (u8 0xdeadbeef) = 0xdeadbeef.
Proof. apply makeU32_PutUint32. unfold fits; lia. Defined.
