(* ===== verification/Tables.v ===== *)
(** * Tables: the S-boxes [S0], [S1] and the constants [D] of ZUC

    [src/zuc.go] indexes three package-level arrays, [S0], [S1] (type
    [[256]uint8]) and [D] (sixteen 15-bit constants), whose Go file is not
    among the sources.  They are transcribed here from the ZUC
    specification (version 1.6, the document the sources cite), and the
    known-answer vectors of [Zuc] check the transcription: a single wrong
    entry changes the keystream.  The theorems state the properties of the
    tables the cipher relies on: both S-boxes are permutations of the
    bytes, and every constant of [D] is a nonzero 15-bit value, which makes
    every initial LFSR cell nonzero. *)

From S2P Require Import Prelude.

Definition S0 : list Z := [
  0x3e; 0x72; 0x5b; 0x47; 0xca; 0xe0; 0x00; 0x33; 0x04; 0xd1; 0x54; 0x98; 0x09; 0xb9; 0x6d; 0xcb;
  0x7b; 0x1b; 0xf9; 0x32; 0xaf; 0x9d; 0x6a; 0xa5; 0xb8; 0x2d; 0xfc; 0x1d; 0x08; 0x53; 0x03; 0x90;
  0x4d; 0x4e; 0x84; 0x99; 0xe4; 0xce; 0xd9; 0x91; 0xdd; 0xb6; 0x85; 0x48; 0x8b; 0x29; 0x6e; 0xac;
  0xcd; 0xc1; 0xf8; 0x1e; 0x73; 0x43; 0x69; 0xc6; 0xb5; 0xbd; 0xfd; 0x39; 0x63; 0x20; 0xd4; 0x38;
  0x76; 0x7d; 0xb2; 0xa7; 0xcf; 0xed; 0x57; 0xc5; 0xf3; 0x2c; 0xbb; 0x14; 0x21; 0x06; 0x55; 0x9b;
  0xe3; 0xef; 0x5e; 0x31; 0x4f; 0x7f; 0x5a; 0xa4; 0x0d; 0x82; 0x51; 0x49; 0x5f; 0xba; 0x58; 0x1c;
  0x4a; 0x16; 0xd5; 0x17; 0xa8; 0x92; 0x24; 0x1f; 0x8c; 0xff; 0xd8; 0xae; 0x2e; 0x01; 0xd3; 0xad;
  0x3b; 0x4b; 0xda; 0x46; 0xeb; 0xc9; 0xde; 0x9a; 0x8f; 0x87; 0xd7; 0x3a; 0x80; 0x6f; 0x2f; 0xc8;
  0xb1; 0xb4; 0x37; 0xf7; 0x0a; 0x22; 0x13; 0x28; 0x7c; 0xcc; 0x3c; 0x89; 0xc7; 0xc3; 0x96; 0x56;
  0x07; 0xbf; 0x7e; 0xf0; 0x0b; 0x2b; 0x97; 0x52; 0x35; 0x41; 0x79; 0x61; 0xa6; 0x4c; 0x10; 0xfe;
  0xbc; 0x26; 0x95; 0x88; 0x8a; 0xb0; 0xa3; 0xfb; 0xc0; 0x18; 0x94; 0xf2; 0xe1; 0xe5; 0xe9; 0x5d;
  0xd0; 0xdc; 0x11; 0x66; 0x64; 0x5c; 0xec; 0x59; 0x42; 0x75; 0x12; 0xf5; 0x74; 0x9c; 0xaa; 0x23;
  0x0e; 0x86; 0xab; 0xbe; 0x2a; 0x02; 0xe7; 0x67; 0xe6; 0x44; 0xa2; 0x6c; 0xc2; 0x93; 0x9f; 0xf1;
  0xf6; 0xfa; 0x36; 0xd2; 0x50; 0x68; 0x9e; 0x62; 0x71; 0x15; 0x3d; 0xd6; 0x40; 0xc4; 0xe2; 0x0f;
  0x8e; 0x83; 0x77; 0x6b; 0x25; 0x05; 0x3f; 0x0c; 0x30; 0xea; 0x70; 0xb7; 0xa1; 0xe8; 0xa9; 0x65;
  0x8d; 0x27; 0x1a; 0xdb; 0x81; 0xb3; 0xa0; 0xf4; 0x45; 0x7a; 0x19; 0xdf; 0xee; 0x78; 0x34; 0x60].

Definition S1 : list Z := [
  0x55; 0xc2; 0x63; 0x71; 0x3b; 0xc8; 0x47; 0x86; 0x9f; 0x3c; 0xda; 0x5b; 0x29; 0xaa; 0xfd; 0x77;
  0x8c; 0xc5; 0x94; 0x0c; 0xa6; 0x1a; 0x13; 0x00; 0xe3; 0xa8; 0x16; 0x72; 0x40; 0xf9; 0xf8; 0x42;
  0x44; 0x26; 0x68; 0x96; 0x81; 0xd9; 0x45; 0x3e; 0x10; 0x76; 0xc6; 0xa7; 0x8b; 0x39; 0x43; 0xe1;
  0x3a; 0xb5; 0x56; 0x2a; 0xc0; 0x6d; 0xb3; 0x05; 0x22; 0x66; 0xbf; 0xdc; 0x0b; 0xfa; 0x62; 0x48;
  0xdd; 0x20; 0x11; 0x06; 0x36; 0xc9; 0xc1; 0xcf; 0xf6; 0x27; 0x52; 0xbb; 0x69; 0xf5; 0xd4; 0x87;
  0x7f; 0x84; 0x4c; 0xd2; 0x9c; 0x57; 0xa4; 0xbc; 0x4f; 0x9a; 0xdf; 0xfe; 0xd6; 0x8d; 0x7a; 0xeb;
  0x2b; 0x53; 0xd8; 0x5c; 0xa1; 0x14; 0x17; 0xfb; 0x23; 0xd5; 0x7d; 0x30; 0x67; 0x73; 0x08; 0x09;
  0xee; 0xb7; 0x70; 0x3f; 0x61; 0xb2; 0x19; 0x8e; 0x4e; 0xe5; 0x4b; 0x93; 0x8f; 0x5d; 0xdb; 0xa9;
  0xad; 0xf1; 0xae; 0x2e; 0xcb; 0x0d; 0xfc; 0xf4; 0x2d; 0x46; 0x6e; 0x1d; 0x97; 0xe8; 0xd1; 0xe9;
  0x4d; 0x37; 0xa5; 0x75; 0x5e; 0x83; 0x9e; 0xab; 0x82; 0x9d; 0xb9; 0x1c; 0xe0; 0xcd; 0x49; 0x89;
  0x01; 0xb6; 0xbd; 0x58; 0x24; 0xa2; 0x5f; 0x38; 0x78; 0x99; 0x15; 0x90; 0x50; 0xb8; 0x95; 0xe4;
  0xd0; 0x91; 0xc7; 0xce; 0xed; 0x0f; 0xb4; 0x6f; 0xa0; 0xcc; 0xf0; 0x02; 0x4a; 0x79; 0xc3; 0xde;
  0xa3; 0xef; 0xea; 0x51; 0xe6; 0x6b; 0x18; 0xec; 0x1b; 0x2c; 0x80; 0xf7; 0x74; 0xe7; 0xff; 0x21;
  0x5a; 0x6a; 0x54; 0x1e; 0x41; 0x31; 0x92; 0x35; 0xc4; 0x33; 0x07; 0x0a; 0xba; 0x7e; 0x0e; 0x34;
  0x88; 0xb1; 0x98; 0x7c; 0xf3; 0x3d; 0x60; 0x6c; 0x7b; 0xca; 0xd3; 0x1f; 0x32; 0x65; 0x04; 0x28;
  0x64; 0xbe; 0x85; 0x9b; 0x2f; 0x59; 0x8a; 0xd7; 0xb0; 0x25; 0xac; 0xaf; 0x12; 0x03; 0xe2; 0xf2].

Definition D : list Z := [
  0x44D7; 0x26BC; 0x626B; 0x135E; 0x5789; 0x35E2; 0x7135; 0x09AF;
  0x4D78; 0x2F13; 0x6BC4; 0x1AF1; 0x5E26; 0x3C4D; 0x789A; 0x47AC].

(** An index [t[i]] of a [[256]uint8] array by a value the code has
    already reduced to 8 bits; [load_tbl] shows the bounds check of Go
    never fails there, so the model reads the entry without an [option]. *)
Definition tbl (t : list Z) (i : Z) : Z := nth (Z.to_nat i) t 0.

(** ** Helper lemmas *)

Lemma length_S0 : length S0 = 256%nat.
Proof. reflexivity. Qed.

Lemma length_S1 : length S1 = 256%nat.
Proof. reflexivity. Qed.

Lemma length_D : length D = 16%nat.
Proof. reflexivity. Qed.

Lemma load_tbl t i :
  length t = 256%nat -> fits 8 i -> load t i = Some (tbl t i).
Proof.
  unfold load, tbl, fits; intros Hl Hi. rewrite decide_True by lia.
  destruct (lookup_lt_is_Some_2 t (Z.to_nat i)) as [x Hx].
  { rewrite Hl. change 256%nat with (Z.to_nat (2 ^ 8)). lia. }
  rewrite Hx. f_equal. symmetry. by apply nth_lookup_Some.
Qed.

(** A byte table with no duplicate and every byte present is a
    permutation of the bytes. *)
Lemma byte_table_perm t :
  NoDup t -> Forall (fits 8) t -> Forall (fun x => x ∈ t) (seqZ 0 256) ->
  t ≡ₚ seqZ 0 256.
Proof.
  intros Hnd Hin Hall. apply NoDup_Permutation; [done | apply NoDup_seqZ |].
  intros x. rewrite elem_of_seqZ. split.
  - intros Hx. rewrite Forall_forall in Hin. apply Hin in Hx.
    unfold fits in Hx. lia.
  - intros Hx. rewrite Forall_forall in Hall. apply Hall, elem_of_seqZ. lia.
Qed.

Lemma fits_tbl_byte t i : Forall (fits 8) t -> fits 8 (tbl t i).
Proof.
  unfold tbl; intros H. destruct (nth_in_or_default (Z.to_nat i) t 0) as [Hin | ->].
  - rewrite Forall_forall in H. by apply H, list_elem_of_In.
  - unfold fits; lia.
Qed.

Lemma S0_bytes : Forall (fits 8) S0.
Proof. decide_concrete. Qed.

Lemma S1_bytes : Forall (fits 8) S1.
Proof. decide_concrete. Qed.

Lemma fits_S0 i : fits 8 (tbl S0 i).
Proof. apply fits_tbl_byte, S0_bytes. Qed.

Lemma fits_S1 i : fits 8 (tbl S1 i).
Proof. apply fits_tbl_byte, S1_bytes. Qed.

#[export] Hint Resolve fits_S0 fits_S1 : zuc.

Lemma S0_nodup : NoDup S0.
Proof. decide_concrete. Qed.

Lemma S1_nodup : NoDup S1.
Proof. decide_concrete. Qed.

(** A table without duplicates is read at distinct bytes at distinct
    entries. *)
Lemma tbl_inj t i j :
  NoDup t -> length t = 256%nat -> fits 8 i -> fits 8 j -> tbl t i = tbl t j -> i = j.
Proof.
  unfold tbl, fits. intros Hnd Hl Hi Hj E. change (2 ^ 8) with 256 in *.
  destruct (lookup_lt_is_Some_2 t (Z.to_nat i)) as [x Hx]; [lia|].
  destruct (lookup_lt_is_Some_2 t (Z.to_nat j)) as [y Hy]; [lia|].
  rewrite (nth_lookup_Some _ _ _ _ Hx), (nth_lookup_Some _ _ _ _ Hy) in E. subst y.
  pose proof (NoDup_lookup t _ _ x Hnd Hx Hy). lia.
Qed.

(** ** Theorems *)

(** [S0] is a permutation of the 256 byte values. *)
Theorem S0_permutation : S0 ≡ₚ seqZ 0 256.
Proof.
  apply byte_table_perm; [apply S0_nodup | apply S0_bytes |].
  decide_concrete.
Qed.

(** [S1] is a permutation of the 256 byte values. *)
Theorem S1_permutation : S1 ≡ₚ seqZ 0 256.
Proof.
  apply byte_table_perm; [apply S1_nodup | apply S1_bytes |].
  decide_concrete.
Qed.

(** Every constant of [D] lies in [1, 2^15): the middle field of each
    initial cell is nonzero and fits its 15 bits. *)
Theorem D_range : Forall (fun d => 1 <= d < 2 ^ 15) D.
Proof. decide_concrete. Qed.
