(* ===== verification/Lfsr.v ===== *)
(** * Lfsr: the linear feedback shift register of [src/zuc.go]

    The Go struct [LFSR] has sixteen [uint32] fields [S0] .. [S15]; it is
    the record [LFSR] here, field for field.  [update] is the shift of
    the method [update] of [*LFSR]; [WithInitialisationMode] and [WithWorkMode] are the
    two feedback steps, each the same chain of [addM] and [mulByPow2]
    calls as the code.

    The abstract view of a register is the list [cells] of its sixteen
    cells; a register is well formed ([lfsr_ok]) when every cell is in
    [1, p].  The theorems are the refinement of the code by the recurrence
    of the ZUC standard, which reads
    s16 = 2^15 s15 + 2^17 s13 + 2^21 s10 + 2^20 s4 + (1 + 2^8) s0 (mod p),
    with [u] added in initialisation mode and the result kept in [1, p];
    the invariant [lfsr_ok] follows. *)

From S2P Require Import Prelude Words.

(** ** The register *)

Record LFSR := mkLFSR {
  S0 : Z; S1 : Z; S2 : Z; S3 : Z; S4 : Z; S5 : Z; S6 : Z; S7 : Z;
  S8 : Z; S9 : Z; S10 : Z; S11 : Z; S12 : Z; S13 : Z; S14 : Z; S15 : Z
}.

(** The method [update(f)] of [*LFSR]: every cell moves down one slot, [f] enters at
    [S15]. *)
Definition update (l : LFSR) (f : Z) : LFSR :=
  {| S0 := S1 l; S1 := S2 l; S2 := S3 l; S3 := S4 l; S4 := S5 l;
     S5 := S6 l; S6 := S7 l; S7 := S8 l; S8 := S9 l; S9 := S10 l;
     S10 := S11 l; S11 := S12 l; S12 := S13 l; S13 := S14 l;
     S14 := S15 l; S15 := f |}.

(** The method [WithInitialisationMode(u)] of [*LFSR]. *)
Definition WithInitialisationMode (l : LFSR) (u : Z) : LFSR :=
  let f := S0 l in
  let v := mulByPow2 (S0 l) 8 in
  let f := addM f v in
  let v := mulByPow2 (S4 l) 20 in
  let f := addM f v in
  let v := mulByPow2 (S10 l) 21 in
  let f := addM f v in
  let v := mulByPow2 (S13 l) 17 in
  let f := addM f v in
  let v := mulByPow2 (S15 l) 15 in
  let f := addM f v in
  let f := addM f u in
  update l f.

(** The method [WithWorkMode()] of [*LFSR]. *)
Definition WithWorkMode (l : LFSR) : LFSR :=
  let f := S0 l in
  let v := mulByPow2 (S0 l) 8 in
  let f := addM f v in
  let v := mulByPow2 (S4 l) 20 in
  let f := addM f v in
  let v := mulByPow2 (S10 l) 21 in
  let f := addM f v in
  let v := mulByPow2 (S13 l) 17 in
  let f := addM f v in
  let v := mulByPow2 (S15 l) 15 in
  let f := addM f v in
  update l f.

(** ** The abstract register *)

Definition cells (l : LFSR) : list Z :=
  [S0 l; S1 l; S2 l; S3 l; S4 l; S5 l; S6 l; S7 l;
   S8 l; S9 l; S10 l; S11 l; S12 l; S13 l; S14 l; S15 l].

Definition lfsr_ok (l : LFSR) : Prop := Forall cell_ok (cells l).

#[export] Instance lfsr_ok_dec l : Decision (lfsr_ok l).
Proof. unfold lfsr_ok. apply _. Defined.

(** The feedback polynomial of the ZUC standard, over [Z]. *)
Definition feedback (l : LFSR) : Z :=
  2 ^ 15 * S15 l + 2 ^ 17 * S13 l + 2 ^ 21 * S10 l + 2 ^ 20 * S4 l
  + (1 + 2 ^ 8) * S0 l.

(** ** Helper lemmas *)

Lemma cells_update l f : cells (update l f) = tail (cells l) ++ [f].
Proof. reflexivity. Qed.

Lemma length_cells l : length (cells l) = 16%nat.
Proof. reflexivity. Qed.

(** Split [lfsr_ok] into one [cell_ok] hypothesis per cell. *)
Ltac destruct_lfsr_ok H :=
  unfold lfsr_ok, cells in H; rewrite !Forall_cons_iff in H; destruct_and! H.

(** The chain of [addM] and [mulByPow2] shared by both modes is the
    representative of the feedback polynomial. *)
Lemma feedback_chain l :
  lfsr_ok l ->
  addM (addM (addM (addM (addM (S0 l) (mulByPow2 (S0 l) 8))
    (mulByPow2 (S4 l) 20)) (mulByPow2 (S10 l) 21)) (mulByPow2 (S13 l) 17))
    (mulByPow2 (S15 l) 15)
  = canon (feedback l).
Proof.
  intros Hl. destruct_lfsr_ok Hl.
  rewrite !mulByPow2_canon by (auto with zuc; lia).
  rewrite !addM_canon by (auto 10 with zuc).
  apply eqp_canon. rewrite !canon_eqp. unfold eqp, feedback. f_equal. ring.
Qed.

(** ** Theorems *)

(** C1: Work mode refines the recurrence of the standard: the register shifts
    and the new cell [S15] is the representative in [1, p] of
    2^15 s15 + 2^17 s13 + 2^21 s10 + 2^20 s4 + (1 + 2^8) s0. *)
Theorem WithWorkMode_spec l :
  lfsr_ok l -> cells (WithWorkMode l) = tail (cells l) ++ [canon (feedback l)].
Proof.
  intros Hl. unfold WithWorkMode. cbv zeta.
  rewrite cells_update, feedback_chain by exact Hl. reflexivity.
Qed.

(** C2: Initialisation mode refines the same recurrence with the input [u]
    added, for every [u] in [0, p] (the code passes [w >> 1], a 31-bit
    value). *)
Theorem WithInitialisationMode_spec l u :
  lfsr_ok l -> 0 <= u <= p ->
  cells (WithInitialisationMode l u) = tail (cells l) ++ [canon (feedback l + u)].
Proof.
  intros Hl Hu. unfold WithInitialisationMode. cbv zeta.
  rewrite cells_update, feedback_chain by exact Hl.
  rewrite addM_canon by auto with zuc. do 2 f_equal.
  apply eqp_canon. rewrite canon_eqp. reflexivity.
Qed.

(** The invariant: both modes keep every cell in [1, p]. *)
Lemma lfsr_ok_shift l f : lfsr_ok l -> cell_ok f -> lfsr_ok (update l f).
Proof.
  unfold lfsr_ok; intros Hl Hf. rewrite cells_update.
  apply Forall_app; split; [|by constructor].
  unfold cells in *. inversion Hl; assumption.
Qed.

Corollary WithWorkMode_ok l : lfsr_ok l -> lfsr_ok (WithWorkMode l).
Proof.
  intros Hl. unfold WithWorkMode. cbv zeta. rewrite feedback_chain by exact Hl.
  apply lfsr_ok_shift; auto with zuc.
Qed.

Corollary WithInitialisationMode_ok l u :
  lfsr_ok l -> 0 <= u <= p -> lfsr_ok (WithInitialisationMode l u).
Proof.
  intros Hl Hu. unfold WithInitialisationMode. cbv zeta. rewrite feedback_chain by exact Hl.
  apply lfsr_ok_shift; auto with zuc.
Qed.

#[export] Hint Resolve WithWorkMode_ok WithInitialisationMode_ok : zuc.

(** ** Witnesses *)

Lemma WithWorkMode_spec_witness :
  cells (WithWorkMode (mkLFSR 1 2 3 4 5 6 7 8 9 10 11 12 13 14 15 16))
  = tail (cells (mkLFSR 1 2 3 4 5 6 7 8 9 10 11 12 13 14 15 16))
    ++ [canon (feedback (mkLFSR 1 2 3 4 5 6 7 8 9 10 11 12 13 14 15 16))].
Proof. apply WithWorkMode_spec. decide_concrete. Defined.

Lemma WithInitialisationMode_spec_witness :
  cells (WithInitialisationMode (mkLFSR 1 2 3 4 5 6 7 8 9 10 11 12 13 14 15 16) p)
  = tail (cells (mkLFSR 1 2 3 4 5 6 7 8 9 10 11 12 13 14 15 16))
    ++ [canon (feedback (mkLFSR 1 2 3 4 5 6 7 8 9 10 11 12 13 14 15 16) + p)].
Proof.
  apply WithInitialisationMode_spec; [|unfold p; lia].
  decide_concrete.
Defined.
