(* ===== verification/Zuc.v ===== *)
(** * Zuc: the keystream generator of [src/zuc.go]

    The Go struct [ZUC] holds pointers to an [LFSR], a [BRC] (the bit
    reorganisation output X0..X3) and an [F] (the memory R1, R2) and two
    flags.  Here it is the record [ZUC] with the three structs inline: the
    code allocates each pointer on first initialisation and never reads one
    before, since [NextKey] checks [is_initialized] first, so the zero
    value [zuc0] of the record stands for the zero [ZUC{}] of Go.

    Methods on [*ZUC] are functions of the state returning the new state;
    [Initialization], [NextKey] and [GenerateKeystream], which can panic,
    are in the monad [Go ZUC] of the prelude, a panic being [None].
    [NextKey] is the composition of the one-time warm-up round [warmup]
    (the block under [if z.is_first]) and of the output round [round], as
    the code has them in sequence.

    The theorems: the bit reorganisation extracts the slices the standard
    names; a reachable state (from [NewZUC] by [NextKey] steps) keeps every
    LFSR cell in [1, p] and 32-bit registers, so [NextKey] never panics on
    it; [NextKey] panics exactly on an uninitialised generator;
    [GenerateKeystream n] is [n] output rounds after the warm-up, it
    returns [n] words, and [GenerateKeystream (a + b)] is [a] words then
    [b] more; [Initialization] reads only the first 16 key and IV bytes;
    and the known-answer vectors of the test file hold. *)

From S2P Require Import Prelude Words Tables Lfsr.

(** ** State *)

Record BRC := mkBRC { X0 : Z; X1 : Z; X2 : Z; X3 : Z }.

Record F := mkF { R1 : Z; R2 : Z }.

Record ZUC := mkZUC {
  lfsr : LFSR;
  brc : BRC;
  f : F;
  is_initialized : bool;
  is_first : bool
}.

Definition set_lfsr (z : ZUC) (l : LFSR) : ZUC :=
  mkZUC l (brc z) (f z) (is_initialized z) (is_first z).
Definition set_brc (z : ZUC) (b : BRC) : ZUC :=
  mkZUC (lfsr z) b (f z) (is_initialized z) (is_first z).
Definition set_f (z : ZUC) (r : F) : ZUC :=
  mkZUC (lfsr z) (brc z) r (is_initialized z) (is_first z).
Definition set_is_initialized (z : ZUC) (b : bool) : ZUC :=
  mkZUC (lfsr z) (brc z) (f z) b (is_first z).
Definition set_is_first (z : ZUC) (b : bool) : ZUC :=
  mkZUC (lfsr z) (brc z) (f z) (is_initialized z) b.

Definition lfsr0 : LFSR := mkLFSR 0 0 0 0 0 0 0 0 0 0 0 0 0 0 0 0.

(** The zero value [ZUC{}]. *)
Definition zuc0 : ZUC := mkZUC lfsr0 (mkBRC 0 0 0 0) (mkF 0 0) false false.

(** ** Operations *)

(** [(z *ZUC) bitReorganization()]. *)
Definition bitReorganization (z : ZUC) : ZUC :=
  let l := lfsr z in
  set_brc z
    {| X0 := Z.lor (u32 (Z.shiftl (Z.land (S15 l) 0x7FFF8000) 1)) (Z.land (S14 l) 0xFFFF);
       X1 := Z.lor (u32 (Z.shiftl (Z.land (S11 l) 0xFFFF) 16)) (Z.shiftr (S9 l) 15);
       X2 := Z.lor (u32 (Z.shiftl (Z.land (S7 l) 0xFFFF) 16)) (Z.shiftr (S5 l) 15);
       X3 := Z.lor (u32 (Z.shiftl (Z.land (S2 l) 0xFFFF) 16)) (Z.shiftr (S0 l) 15) |}.

(** The 32-bit S-box layer of [f_]: [S0], [S1], [S0], [S1] on the four
    bytes, most significant first. *)
Definition sbox (u : Z) : Z :=
  makeU32 (tbl Tables.S0 (Z.shiftr u 24)) (tbl Tables.S1 (Z.land (Z.shiftr u 16) 0xff))
          (tbl Tables.S0 (Z.land (Z.shiftr u 8) 0xff)) (tbl Tables.S1 (Z.land u 0xff)).

(** [(z *ZUC) f_() uint32]: returns [w] and updates [R1], [R2]. *)
Definition f_ (z : ZUC) : Z * ZUC :=
  let b := brc z in
  let r := f z in
  let w := u32 (Z.lxor (X0 b) (R1 r) + R2 r) in
  let w1 := u32 (R1 r + X1 b) in
  let w2 := Z.lxor (R2 r) (X2 b) in
  let u := l1 (Z.lor (u32 (Z.shiftl w1 16)) (Z.shiftr w2 16)) in
  let v := l2 (Z.lor (u32 (Z.shiftl w2 16)) (Z.shiftr w1 16)) in
  (w, set_f z {| R1 := sbox u; R2 := sbox v |}).

(** One round of the initialisation loop:
    [z.bitReorganization(); w := z.f_(); z.lfsr.WithInitialisationMode(w >> 1)]. *)
Definition init_round (z : ZUC) : ZUC :=
  let z := bitReorganization z in
  let (w, z) := f_ z in
  set_lfsr z (WithInitialisationMode (lfsr z) (Z.shiftr w 1)).

(** [for n := 32; n > 0; n -= 1 { ... }]: the counter is the fuel. *)
Fixpoint init_rounds (n : nat) (z : ZUC) : ZUC :=
  match n with
  | O => z
  | S n => init_rounds n (init_round z)
  end.

(** The initial cell [i]: [makeU31(uint32(k[i]), uint32(D[i]), uint32(iv[i]))];
    [k[i]] and [iv[i]] panic on a short slice. *)
Definition init_cell (k iv : list Z) (i : Z) : option Z :=
  a ← load k i; c ← load iv i; Some (makeU31 a (tbl D i) c).

Definition lfsr_of_cells (c : list Z) : LFSR :=
  match c with
  | [c0; c1; c2; c3; c4; c5; c6; c7; c8; c9; c10; c11; c12; c13; c14; c15] =>
      mkLFSR c0 c1 c2 c3 c4 c5 c6 c7 c8 c9 c10 c11 c12 c13 c14 c15
  | _ => lfsr0
  end.

(** [(z *ZUC) Initialization(k, iv)]. *)
Definition Initialization (k iv : list Z) : Go ZUC unit := fun z =>
  let z := set_is_first z true in
  c ← mapM (init_cell k iv) (seqZ 0 16);
  let z := set_lfsr z (lfsr_of_cells c) in
  let z := set_f z {| R1 := 0; R2 := 0 |} in
  let z := init_rounds 32 z in
  Some (tt, set_is_initialized z true).

(** The block [if z.is_first { ... }] of [NextKey]: one round whose output
    is discarded, then the flag is cleared. *)
Definition warmup (z : ZUC) : ZUC :=
  let z := bitReorganization z in
  let (_, z) := f_ z in
  let z := set_lfsr z (WithWorkMode (lfsr z)) in
  set_is_first z false.

(** The output round of [NextKey]:
    [z.bitReorganization(); k := z.f_() ^ z.brc.X3; z.lfsr.WithWorkMode()]. *)
Definition round (z : ZUC) : Z * ZUC :=
  let z := bitReorganization z in
  let (w, z) := f_ z in
  let k := Z.lxor w (X3 (brc z)) in
  (k, set_lfsr z (WithWorkMode (lfsr z))).

(** [(z *ZUC) NextKey() uint32]: panics before initialisation. *)
Definition NextKey : Go ZUC Z := fun z =>
  if negb (is_initialized z) then None
  else
    let z := if is_first z then warmup z else z in
    Some (round z).

(** The loop of [GenerateKeystream]: [keys = append(keys, z.NextKey())]. *)
Fixpoint gen_loop (n : nat) (keys : list Z) : Go ZUC (list Z) :=
  match n with
  | O => go_ret keys
  | S n => go_bind NextKey (fun k => gen_loop n (keys ++ [k]))
  end.

(** [(z *ZUC) GenerateKeystream(length uint32) []uint32]: the loop
    [for i := uint32(0); i < length; i += 1] runs [length] times. *)
Definition GenerateKeystream (length : Z) : Go ZUC (list Z) :=
  gen_loop (Z.to_nat length) [].

(** [NewZUC(k, iv)]: a zero [ZUC] initialised. *)
Definition NewZUC (k iv : list Z) : option ZUC :=
  '(_, z) ← Initialization k iv zuc0; Some z.

(** ** Invariant *)

(** A usable generator: initialised, its cells in [1, p] and its memory
    in 32 bits. *)
Definition zuc_inv (z : ZUC) : Prop :=
  is_initialized z = true /\ lfsr_ok (lfsr z)
  /\ fits 32 (R1 (f z)) /\ fits 32 (R2 (f z)).

#[export] Instance zuc_inv_dec z : Decision (zuc_inv z).
Proof. unfold zuc_inv. apply _. Defined.

(** The states [NewZUC] creates from byte slices and [NextKey] reaches. *)
Inductive reachable : ZUC -> Prop :=
  | reachable_new k iv z :
      Forall (fits 8) k -> Forall (fits 8) iv -> NewZUC k iv = Some z -> reachable z
  | reachable_next z w z' :
      reachable z -> NextKey z = Some (w, z') -> reachable z'.

(** ** Helper lemmas *)

Lemma fits_sbox u : fits 32 (sbox u).
Proof. unfold sbox. auto with zuc. Qed.

(** What [f_] keeps, and the bounds of what it produces. *)
Lemma f_frame z :
  lfsr (snd (f_ z)) = lfsr z /\ is_initialized (snd (f_ z)) = is_initialized z
  /\ is_first (snd (f_ z)) = is_first z /\ brc (snd (f_ z)) = brc z
  /\ fits 32 (fst (f_ z))
  /\ fits 32 (R1 (f (snd (f_ z)))) /\ fits 32 (R2 (f (snd (f_ z)))).
Proof. unfold f_; simpl. split_and!; auto using fits_sbox with zuc. Qed.

Lemma init_input_range w : fits 32 w -> 0 <= Z.shiftr w 1 <= p.
Proof.
  intros Hw. pose proof (fits_div 32 1 w ltac:(lia) Hw) as H.
  rewrite Z.shiftr_div_pow2 by lia. unfold fits, p in *. simpl in *. lia.
Qed.

Lemma init_round_ok z : lfsr_ok (lfsr z) -> lfsr_ok (lfsr (init_round z)).
Proof.
  intros Hl. unfold init_round.
  destruct (f_frame (bitReorganization z)) as (Hl' & _ & _ & _ & Hw & _).
  destruct (f_ (bitReorganization z)) as [w z'] eqn:E. simpl in *.
  apply WithInitialisationMode_ok; [rewrite Hl'; exact Hl | apply init_input_range, Hw].
Qed.

Lemma init_rounds_ok n z : lfsr_ok (lfsr z) -> lfsr_ok (lfsr (init_rounds n z)).
Proof. revert z; induction n; intros z Hz; simpl; auto using init_round_ok. Qed.

Lemma init_rounds_flags n z :
  is_initialized (init_rounds n z) = is_initialized z /\ is_first (init_rounds n z) = is_first z.
Proof.
  revert z; induction n as [|n IH]; intros z; simpl; [done|].
  rewrite !(proj1 (IH _)), !(proj2 (IH _)). unfold init_round.
  destruct (f_frame (bitReorganization z)) as (_ & Hi & Hf & _).
  destruct (f_ (bitReorganization z)); simpl in *. auto.
Qed.

(** After at least one round, [R1] and [R2] are S-box outputs. *)
Lemma init_rounds_regs n z :
  fits 32 (R1 (f (init_rounds (S n) z))) /\ fits 32 (R2 (f (init_rounds (S n) z))).
Proof.
  revert z; induction n as [|n IH]; intros z; [|exact (IH (init_round z))].
  split; apply fits_sbox.
Qed.

Lemma warmup_inv z : zuc_inv z -> zuc_inv (warmup z) /\ is_first (warmup z) = false.
Proof.
  intros (Hi & Hl & _). unfold warmup.
  destruct (f_frame (bitReorganization z)) as (Hl' & Hi' & _ & _ & _ & H1 & H2).
  destruct (f_ (bitReorganization z)); simpl in *.
  unfold zuc_inv; simpl. split_and!; try apply WithWorkMode_ok; try congruence; auto.
Qed.

Lemma round_inv z :
  zuc_inv z -> zuc_inv (snd (round z)) /\ fits 32 (fst (round z))
  /\ is_first (snd (round z)) = is_first z.
Proof.
  intros (Hi & Hl & _). unfold round.
  destruct (f_frame (bitReorganization z)) as (Hl' & Hi' & Hf' & Hb & Hw & H1 & H2).
  destruct (f_ (bitReorganization z)) as [w z']; simpl in *.
  unfold zuc_inv; simpl. split_and!; try apply WithWorkMode_ok; try congruence; auto.
  apply fits_lxor; [lia | exact Hw |]. rewrite Hb. simpl.
    apply fits_lor; [lia | auto with zuc |]. apply fits_shiftr; [lia|].
    destruct_lfsr_ok Hl. eapply fits_mono; [|auto with zuc]. lia.
Qed.

(** From here on [simpl] must not unroll the 32 initialisation rounds. *)
Arguments init_rounds : simpl never.

Lemma D_entry i : 0 <= i < 16 -> 1 <= tbl D i < 2 ^ 15.
Proof.
  intros Hi. pose proof D_range as HD. rewrite Forall_forall in HD. apply HD.
  unfold tbl. apply list_elem_of_In, nth_In. rewrite length_D. lia.
Qed.

Lemma load_byte (s : list Z) i :
  Forall (fits 8) s -> 0 <= i < Z.of_nat (length s) -> exists a, load s i = Some a /\ fits 8 a.
Proof.
  intros Hs Hi. unfold load. rewrite decide_True by lia.
  destruct (lookup_lt_is_Some_2 s (Z.to_nat i)) as [a Ha]; [lia|].
  exists a. split; [done|]. rewrite Forall_lookup in Hs. eauto.
Qed.

(** Each initial cell packs a key byte, a constant of [D] and an IV byte
    into a value of [1, p]. *)
Lemma init_cell_ok k iv i :
  Forall (fits 8) k -> Forall (fits 8) iv -> (16 <= length k)%nat -> (16 <= length iv)%nat ->
  0 <= i < 16 -> exists y, init_cell k iv i = Some y /\ cell_ok y.
Proof.
  intros Hk Hiv Lk Liv Hi.
  destruct (load_byte k i Hk ltac:(lia)) as (a & Ha & Fa).
  destruct (load_byte iv i Hiv ltac:(lia)) as (c & Hc & Fc).
  pose proof (D_entry i Hi) as Hd.
  exists (makeU31 a (tbl D i) c). unfold init_cell. rewrite Ha, Hc. split; [done|].
  rewrite makeU31_fields by (unfold fits in *; auto with lia).
  unfold cell_ok, fits, p in *. lia.
Qed.

Lemma lfsr_of_cells_ok c :
  Forall cell_ok c -> length c = 16%nat -> lfsr_ok (lfsr_of_cells c).
Proof.
  intros Hc Lc.
  do 16 (destruct c as [|? c]; [discriminate|]). destruct c; [|discriminate].
  exact Hc.
Qed.

Lemma load_take (s : list Z) i : 0 <= i < 16 -> load (take 16 s) i = load s i.
Proof. intros Hi. unfold load. rewrite !decide_True by lia. apply lookup_take_lt. lia. Qed.

(** ** Initialisation and one step *)

(** [Initialization] of byte slices of at least 16 bytes succeeds from any
    state and leaves cells in [1, p], a 32-bit memory and the warm-up
    round pending. *)
Lemma initialization_core k iv z :
  Forall (fits 8) k -> Forall (fits 8) iv -> (16 <= length k)%nat -> (16 <= length iv)%nat ->
  exists z', Initialization k iv z = Some (tt, z') /\ lfsr_ok (lfsr z')
    /\ fits 32 (R1 (f z')) /\ fits 32 (R2 (f z')) /\ is_first z' = true.
Proof.
  intros Hk Hiv Lk Liv.
  destruct (mapM_total (init_cell k iv) cell_ok (seqZ 0 16)) as (c & Hc & Fc & Lc).
  { intros i Hi%elem_of_seqZ. apply init_cell_ok; auto with lia. }
  unfold Initialization. rewrite Hc. cbv zeta. cbn [mbind option_bind].
  eexists; split; [reflexivity|]. rewrite length_seqZ in Lc.
  match goal with |- context [init_rounds 32 ?z1] => set (z0 := z1) end.
  assert (Hl0 : lfsr_ok (lfsr z0)) by (apply lfsr_of_cells_ok; [done | lia]).
  assert (Hf0 : is_first z0 = true) by reflexivity.
  pose proof (init_rounds_ok 32 z0 Hl0) as Hl.
  destruct (init_rounds_flags 32 z0) as [_ Hf]. destruct (init_rounds_regs 31 z0) as [H1 H2].
  generalize dependent (init_rounds 32 z0). intros z1 Hl Hf H1 H2.
  simpl. split_and!; auto; congruence.
Qed.

(** A key or an IV shorter than 16 bytes makes [Initialization] panic. *)
Lemma initialization_short k iv z :
  (length k < 16)%nat \/ (length iv < 16)%nat -> Initialization k iv z = None.
Proof.
  intros Hshort. unfold Initialization.
  assert (Hn : mapM (init_cell k iv) (seqZ 0 16) = None); [|by rewrite Hn].
  destruct Hshort as [Hs|Hs].
  - apply (mapM_None_elem _ _ (Z.of_nat (length k))); [apply elem_of_seqZ; lia|].
    unfold init_cell. rewrite (load_lookup k), lookup_ge_None_2 by lia. reflexivity.
  - apply (mapM_None_elem _ _ (Z.of_nat (length iv))); [apply elem_of_seqZ; lia|].
    unfold init_cell. rewrite (load_lookup iv), lookup_ge_None_2 by lia.
    by destruct (load k _).
Qed.

(** On a usable generator [NextKey] returns a 32-bit word, keeps the
    invariant and has consumed the warm-up round. *)
Lemma next_key_inv z :
  zuc_inv z ->
  exists w z', NextKey z = Some (w, z') /\ fits 32 w /\ zuc_inv z' /\ is_first z' = false.
Proof.
  intros Hz. pose proof Hz as (Hi & _). unfold NextKey. rewrite Hi. simpl.
  destruct (is_first z) eqn:Ef.
  - destruct (warmup_inv z Hz) as [Hw Hf]. destruct (round_inv _ Hw) as (H1 & H2 & H3).
    exists (fst (round (warmup z))), (snd (round (warmup z))).
    split; [by destruct (round (warmup z))|]. split_and!; congruence.
  - destruct (round_inv _ Hz) as (H1 & H2 & H3).
    exists (fst (round z)), (snd (round z)).
    split; [by destruct (round z)|]. split_and!; congruence.
Qed.

(** C3: The invariant of the generator: every reachable state is usable,
    and from it [NextKey] does not panic, returns a 32-bit word and
    moves to a reachable state. *)
Theorem reachable_NextKey z :
  reachable z ->
  zuc_inv z /\ exists w z', NextKey z = Some (w, z') /\ fits 32 w /\ reachable z'.
Proof.
  intros Hr. assert (Hz : zuc_inv z).
  { induction Hr as [k iv z Hk Hiv Hz | z w z' _ IH Hstep].
    - unfold NewZUC in Hz.
      destruct (Initialization k iv zuc0) as [[[] z0]|] eqn:Ei; [|discriminate].
      injection Hz as <-.
      destruct (decide (16 <= length k /\ 16 <= length iv)%nat) as [[Lk Liv]|Hs].
      + destruct (initialization_core k iv zuc0 Hk Hiv Lk Liv) as (z' & E & Hl & H1 & H2 & _).
        rewrite Ei in E. injection E as <-. split; [|auto].
        unfold Initialization in Ei.
        destruct (mapM (init_cell k iv) (seqZ 0 16)); cbn [mbind option_bind] in Ei;
          [|discriminate].
        injection Ei as <-. rewrite ?(proj1 (init_rounds_flags _ _)). reflexivity.
      + rewrite initialization_short in Ei by lia. discriminate.
    - destruct (next_key_inv z IH) as (w' & z'' & E & _ & Hinv & _). congruence. }
  split; [exact Hz|].
  destruct (next_key_inv z Hz) as (w & z' & E & Hw & _).
  exists w, z'. split; [exact E|]. split; [exact Hw|]. by eapply reachable_next.
Qed.

(** [Initialization] marks the generator initialised. *)
Lemma initialization_flag k iv z z' :
  Initialization k iv z = Some (tt, z') -> is_initialized z' = true.
Proof.
  unfold Initialization. destruct (mapM (init_cell k iv) (seqZ 0 16)); [|discriminate].
  cbn [mbind option_bind]. by intros [= <-].
Qed.

(** Hence it leaves a usable generator whose warm-up round is pending. *)
Lemma initialization_ok k iv z :
  Forall (fits 8) k -> Forall (fits 8) iv -> (16 <= length k)%nat -> (16 <= length iv)%nat ->
  exists z', Initialization k iv z = Some (tt, z') /\ zuc_inv z' /\ is_first z' = true.
Proof.
  intros Hk Hiv Lk Liv.
  destruct (initialization_core k iv z Hk Hiv Lk Liv) as (z' & E & Hl & H1 & H2 & Hf).
  exists z'. split; [exact E|]. split; [|exact Hf].
  split; [exact (initialization_flag _ _ _ _ E) | auto].
Qed.

(** Every reachable generator satisfies the invariant (rule induction). *)
Lemma reachable_zuc_inv z : reachable z -> zuc_inv z.
Proof.
  induction 1 as [k iv z Hk Hiv Hz | z w z' _ IH Hstep].
  - unfold NewZUC in Hz.
    destruct (Initialization k iv zuc0) as [[[] z0]|] eqn:Ei; [|discriminate].
    injection Hz as <-.
    destruct (decide (16 <= length k /\ 16 <= length iv)%nat) as [[Lk Liv]|Hs].
    + destruct (initialization_ok k iv zuc0 Hk Hiv Lk Liv) as (z' & E & Hinv & _).
      congruence.
    + rewrite initialization_short in Ei by lia. discriminate.
  - destruct (next_key_inv z IH) as (w' & z'' & E & _ & Hinv & _). congruence.
Qed.

(** The initialisation rounds read neither [brc] (rebuilt by
    [bitReorganization] first) nor [is_initialized] (carried along). *)
Lemma bitReorganization_set_brc z b : bitReorganization (set_brc z b) = bitReorganization z.
Proof. by destruct z. Qed.

Lemma init_round_set_brc z b : init_round (set_brc z b) = init_round z.
Proof. unfold init_round. by rewrite bitReorganization_set_brc. Qed.

Lemma init_round_set_is_initialized z b :
  init_round (set_is_initialized z b) = set_is_initialized (init_round z) b.
Proof. by destruct z. Qed.

Lemma init_rounds_set_is_initialized n z b :
  init_rounds n (set_is_initialized z b) = set_is_initialized (init_rounds n z) b.
Proof.
  revert z; induction n as [|n IH]; intros z; [done|].
  change (init_rounds (S n) ?x) with (init_rounds n (init_round x)).
  by rewrite init_round_set_is_initialized, IH.
Qed.

(** Hence the result of the rounds does not depend on the [brc] and
    [is_initialized] they start from. *)
Lemma init_rounds_reset n z z' :
  lfsr z = lfsr z' -> f z = f z' -> is_first z = is_first z' ->
  set_is_initialized (init_rounds (S n) z) true = set_is_initialized (init_rounds (S n) z') true.
Proof.
  destruct z as [l b r i fi], z' as [l' b' r' i' fi']; cbn [lfsr f is_first]. intros -> -> ->.
  change (init_rounds (S n) ?x) with (init_rounds n (init_round x)).
  replace (mkZUC l' b r' i fi') with (set_is_initialized (set_brc (mkZUC l' b' r' i' fi') b) i)
    by reflexivity.
  rewrite init_round_set_is_initialized, init_round_set_brc, init_rounds_set_is_initialized.
  by destruct (init_rounds n _).
Qed.

(** ** Theorems on initialisation and [NextKey] *)

(** C20: [NewZUC] on byte slices of at least 16 bytes returns a usable
    generator whose warm-up round is pending. *)
Theorem NewZUC_ok k iv :
  Forall (fits 8) k -> Forall (fits 8) iv -> (16 <= length k)%nat -> (16 <= length iv)%nat ->
  exists z, NewZUC k iv = Some z /\ zuc_inv z /\ is_first z = true.
Proof.
  intros Hk Hiv Lk Liv. unfold NewZUC.
  destruct (initialization_ok k iv zuc0 Hk Hiv Lk Liv) as (z & -> & Hz & Hf).
  eauto.
Qed.

(** C21: A key or an IV shorter than 16 bytes makes [NewZUC] panic, instead of
    returning an error. *)
Theorem NewZUC_short k iv :
  (length k < 16)%nat \/ (length iv < 16)%nat -> NewZUC k iv = None.
Proof. intros Hs. unfold NewZUC. by rewrite initialization_short. Qed.

(** C12: Re-keying forgets the previous state: [Initialization] on any
    generator, fresh or already used, leaves exactly the state it leaves
    on the zero value [ZUC{}]: no register, memory or flag of the
    previous key survives. *)
Theorem Initialization_reset k iv z :
  Initialization k iv z = Initialization k iv zuc0.
Proof.
  unfold Initialization. cbv zeta.
  destruct (mapM (init_cell k iv) (seqZ 0 16)) as [c|];
    cbn [mbind option_bind]; [|reflexivity].
  change 32%nat with (S 31).
  erewrite init_rounds_reset; [reflexivity | reflexivity | reflexivity | reflexivity].
Qed.

(** C27: [Initialization] reads the first 16 bytes of the key and of the IV
    and ignores the rest: it never rejects a longer slice. *)
Theorem Initialization_prefix k iv z :
  Initialization k iv z = Initialization (take 16 k) (take 16 iv) z.
Proof.
  unfold Initialization. rewrite (mapM_ext_in (init_cell k iv) (init_cell (take 16 k) (take 16 iv))).
  { reflexivity. }
  intros i Hi%elem_of_seqZ. unfold init_cell. rewrite !load_take by lia. reflexivity.
Qed.

(** C22: [NextKey] panics exactly when the generator is not initialised. *)
Theorem NextKey_None z : NextKey z = None <-> is_initialized z = false.
Proof. unfold NextKey. destruct (is_initialized z); simpl; split; congruence. Qed.

(** ** [GenerateKeystream] *)

Arguments round : simpl never.
Arguments warmup : simpl never.

(** The output rounds of the standard, as a pure iteration. *)
Fixpoint rounds (n : nat) (z : ZUC) : list Z * ZUC :=
  match n with
  | O => ([], z)
  | S n =>
      let (k, z1) := round z in
      let (ks, z2) := rounds n z1 in
      (k :: ks, z2)
  end.

Lemma round_flags z :
  is_initialized (snd (round z)) = is_initialized z /\ is_first (snd (round z)) = is_first z.
Proof.
  unfold round. destruct (f_frame (bitReorganization z)) as (_ & Hi & Hf & _).
  destruct (f_ (bitReorganization z)); simpl in *. auto.
Qed.

Lemma warmup_flags z :
  is_initialized (warmup z) = is_initialized z /\ is_first (warmup z) = false.
Proof.
  unfold warmup. destruct (f_frame (bitReorganization z)) as (_ & Hi & _).
  destruct (f_ (bitReorganization z)); simpl in *. auto.
Qed.

(** The loop appends to its accumulator. *)
Lemma gen_loop_acc n acc z :
  gen_loop n acc z = option_map (fun r => (acc ++ fst r, snd r)) (gen_loop n [] z).
Proof.
  revert acc z; induction n as [|n IH]; intros acc z; simpl.
  - by rewrite app_nil_r.
  - unfold go_bind. destruct (NextKey z) as [[k z']|]; [|done].
    rewrite IH, (IH [k]). destruct (gen_loop n [] z') as [[ks z'']|]; simpl; [|done].
    by rewrite <- app_assoc.
Qed.

(** Whatever state it starts from, the loop returns its accumulator and
    one word per iteration, or panics. *)
Lemma gen_loop_length n acc z ks z' :
  gen_loop n acc z = Some (ks, z') -> length ks = (length acc + n)%nat.
Proof.
  revert acc z; induction n as [|n IH]; intros acc z E.
  - cbn in E. injection E as <- _. lia.
  - cbn [gen_loop] in E. unfold go_bind in E.
    destruct (NextKey z) as [[k z1]|]; [|discriminate].
    apply IH in E. rewrite length_app in E. cbn in E. lia.
Qed.

Lemma gen_loop_add n m acc :
  forall z, gen_loop (n + m) acc z = go_bind (gen_loop n acc) (fun ks => gen_loop m ks) z.
Proof.
  revert acc; induction n as [|n IH]; intros acc z; [reflexivity|]. simpl.
  unfold go_bind. destruct (NextKey z) as [[k z']|]; [|done]. apply IH.
Qed.

Lemma rounds_S n z k z1 :
  round z = (k, z1) -> rounds (S n) z = (k :: fst (rounds n z1), snd (rounds n z1)).
Proof. intros E. cbn [rounds]. rewrite E. by destruct (rounds n z1). Qed.

(** In the steady state (warm-up done) the loop is the pure iteration. *)
Lemma gen_loop_rounds n acc z :
  is_initialized z = true -> is_first z = false ->
  gen_loop n acc z = Some (acc ++ fst (rounds n z), snd (rounds n z)).
Proof.
  revert acc z; induction n as [|n IH]; intros acc z Hi Hf.
  - cbn. by rewrite app_nil_r.
  - cbn [gen_loop]. unfold go_bind, NextKey. rewrite Hi, Hf. cbn [negb].
    destruct (round_flags z) as [Hi' Hf'].
    destruct (round z) as [k z1] eqn:E. cbn [fst snd] in *.
    rewrite (rounds_S _ _ _ _ E), IH by congruence. cbn [fst snd].
    by rewrite <- app_assoc.
Qed.

(** On a usable generator the loop terminates without panic, returns one
    32-bit word per iteration and keeps the invariant. *)
Lemma gen_loop_total m z :
  zuc_inv z ->
  exists ks z', gen_loop m [] z = Some (ks, z') /\ length ks = m
    /\ Forall (fits 32) ks /\ zuc_inv z'.
Proof.
  revert z. induction m as [|m IH]; intros z Hz.
  - exists [], z. split; [reflexivity|]. split; [reflexivity|]. split; [constructor | exact Hz].
  - simpl. unfold go_bind. destruct (next_key_inv z Hz) as (w & z1 & -> & Hw & Hz1 & _).
    destruct (IH z1 Hz1) as (ks & z2 & E & L & F & Hz2).
    rewrite gen_loop_acc, E. exists (w :: ks), z2.
    split; [reflexivity|]. split; [cbn; congruence|]. split; [by constructor | exact Hz2].
Qed.

(** The loop only moves between reachable states. *)
Lemma gen_loop_reachable n acc z ks z' :
  reachable z -> gen_loop n acc z = Some (ks, z') -> reachable z'.
Proof.
  revert acc z. induction n as [|n IH]; intros acc z Hr E.
  - cbn [gen_loop] in E. unfold go_ret in E. injection E as _ <-. exact Hr.
  - cbn [gen_loop] in E. unfold go_bind in E.
    destruct (NextKey z) as [[k z1]|] eqn:Ek; [|discriminate].
    eapply IH; [eapply reachable_next; eauto | exact E].
Qed.

(** C4: [GenerateKeystream] from a reachable generator terminates without
    panic, returns exactly [length] 32-bit words and leaves a reachable
    generator. *)
Theorem GenerateKeystream_total n z :
  reachable z ->
  exists ks z', GenerateKeystream n z = Some (ks, z') /\ length ks = Z.to_nat n
    /\ Forall (fits 32) ks /\ reachable z'.
Proof.
  intros Hr. unfold GenerateKeystream.
  destruct (gen_loop_total (Z.to_nat n) z (reachable_zuc_inv z Hr)) as (ks & z' & E & L & F & _).
  exists ks, z'. split; [exact E|]. split; [exact L|]. split; [exact F|].
  exact (gen_loop_reachable _ _ _ _ _ Hr E).
Qed.

(** C5: [GenerateKeystream n], for [n > 0], is the warm-up round when it is
    still pending, then [n] output rounds: the flag-driven code implements
    the standard's "discard one word, then output" schedule. *)
Theorem GenerateKeystream_rounds n z :
  0 < n -> is_initialized z = true ->
  GenerateKeystream n z = Some (rounds (Z.to_nat n) (if is_first z then warmup z else z)).
Proof.
  intros Hn Hi. unfold GenerateKeystream.
  destruct (Z.to_nat n) as [|m] eqn:Em; [lia|].
  cbn [gen_loop]. unfold go_bind, NextKey. rewrite Hi. cbn [negb].
  set (z0 := if is_first z then warmup z else z).
  assert (Hz0 : is_initialized z0 = true /\ is_first z0 = false).
  { subst z0. destruct (is_first z) eqn:Ef; [|done]. destruct (warmup_flags z). split; congruence. }
  destruct (round_flags z0) as [Hi' Hf'].
  destruct (round z0) as [k z1] eqn:E. cbn [fst snd] in *.
  rewrite (rounds_S _ _ _ _ E), gen_loop_rounds by (destruct Hz0; congruence).
  reflexivity.
Qed.

(** Every key [NextKey] returns is drawn after the warm-up round. *)
Lemma NextKey_is_first z k z' : NextKey z = Some (k, z') -> is_first z' = false.
Proof.
  unfold NextKey. destruct (is_initialized z); [|discriminate]. cbn [negb].
  set (z0 := if is_first z then warmup z else z).
  assert (Hz0 : is_first z0 = false)
    by (subst z0; destruct (is_first z) eqn:Ef; [apply warmup_flags | exact Ef]).
  destruct (round_flags z0) as [_ Hf]. destruct (round z0) as [k0 z1].
  intros [= <- <-]. cbn in Hf. congruence.
Qed.

Lemma gen_loop_is_first n acc z ks z' :
  is_first z = false -> gen_loop n acc z = Some (ks, z') -> is_first z' = false.
Proof.
  revert acc z. induction n as [|n IH]; intros acc z Hf E.
  - cbn [gen_loop] in E. unfold go_ret in E. injection E as _ <-. exact Hf.
  - cbn [gen_loop] in E. unfold go_bind in E.
    destruct (NextKey z) as [[k z1]|] eqn:Ek; [|discriminate].
    eapply IH; [eapply NextKey_is_first; eauto | exact E].
Qed.

(** C13: The warm-up round is consumed by the first key and never repeated:
    every non-empty draw from a reachable generator ends in the steady
    state, which is reachable again, so every later draw stays in it. *)
Theorem warmup_consumed n z ks z' :
  reachable z -> 0 < n -> GenerateKeystream n z = Some (ks, z') ->
  is_first z' = false /\ reachable z'.
Proof.
  intros Hr Hn E. split; [|exact (gen_loop_reachable _ _ _ _ _ Hr E)].
  unfold GenerateKeystream in E. destruct (Z.to_nat n) as [|m] eqn:Em; [lia|].
  cbn [gen_loop] in E. unfold go_bind in E.
  destruct (NextKey z) as [[k z1]|] eqn:Ek; [|discriminate].
  eapply gen_loop_is_first; [eapply NextKey_is_first; eauto | exact E].
Qed.

(** Two successive draws are one draw of their total. *)
Lemma generate_seq a b z ks1 z1 ks2 z2 :
  0 <= a -> 0 <= b ->
  GenerateKeystream a z = Some (ks1, z1) -> GenerateKeystream b z1 = Some (ks2, z2) ->
  GenerateKeystream (a + b) z = Some (ks1 ++ ks2, z2).
Proof.
  intros Ha Hb E1 E2. unfold GenerateKeystream in *. rewrite Z2Nat.inj_add by lia.
  rewrite gen_loop_add. unfold go_bind. rewrite E1, gen_loop_acc, E2. reflexivity.
Qed.

(** C26: Drawing [a + b] words is drawing [a] words and then [b] more from the
    resulting state: [GenerateKeystream] is [NextKey] repeated, and the keystream does not
    depend on how the caller batches its requests. *)
Theorem GenerateKeystream_app a b z :
  0 <= a -> 0 <= b ->
  GenerateKeystream (a + b) z =
    go_bind (GenerateKeystream a)
      (fun ks1 => go_bind (GenerateKeystream b) (fun ks2 => go_ret (ks1 ++ ks2))) z.
Proof.
  intros Ha Hb. unfold GenerateKeystream. rewrite Z2Nat.inj_add by lia.
  rewrite gen_loop_add. unfold go_bind.
  destruct (gen_loop (Z.to_nat a) [] z) as [[ks1 z1]|]; [|done].
  rewrite gen_loop_acc. by destruct (gen_loop (Z.to_nat b) [] z1) as [[ks2 z2]|].
Qed.

(** ** Bit reorganisation *)

(** [((hi & 0x7FFF8000) << 1) | (lo & 0xFFFF)]: bits 30..15 of [hi] above
    bits 15..0 of [lo]. *)
Lemma slice_high_low hi lo :
  fits 31 hi ->
  Z.lor (u32 (Z.shiftl (Z.land hi 0x7FFF8000) 1)) (Z.land lo 0xFFFF)
  = (hi / 2 ^ 15) * 2 ^ 16 + lo mod 2 ^ 16.
Proof.
  intros Hhi. rewrite <- lor_shift_add by (try lia; apply fits_mod; lia).
  rewrite <- Z.shiftl_mul_pow2, <- Z.shiftr_div_pow2 by lia. bitwise.
Qed.

(** [((hi & 0xFFFF) << 16) | (lo >> 15)]: bits 15..0 of [hi] above bits
    30..15 of [lo]. *)
Lemma slice_low_high hi lo :
  fits 31 lo ->
  Z.lor (u32 (Z.shiftl (Z.land hi 0xFFFF) 16)) (Z.shiftr lo 15)
  = (hi mod 2 ^ 16) * 2 ^ 16 + lo / 2 ^ 15.
Proof.
  intros Hlo. rewrite <- lor_shift_add
    by (try lia; replace 16 with (31 - 15) by lia; apply fits_div; auto; lia).
  rewrite <- Z.shiftl_mul_pow2, <- Z.shiftr_div_pow2 by lia. bitwise.
Qed.

(** C28: The masks and shifts of [bitReorganization] extract the slices the
    standard names: X0 = s15H || s14L, X1 = s11L || s9H, X2 = s7L || s5H,
    X3 = s2L || s0H, where [H] is bits 30..15 and [L] bits 15..0 of a
    31-bit cell. *)
Theorem bitReorganization_slices z :
  lfsr_ok (lfsr z) ->
  let b := brc (bitReorganization z) in
  let l := lfsr z in
  X0 b = (S15 l / 2 ^ 15) * 2 ^ 16 + S14 l mod 2 ^ 16
  /\ X1 b = (S11 l mod 2 ^ 16) * 2 ^ 16 + S9 l / 2 ^ 15
  /\ X2 b = (S7 l mod 2 ^ 16) * 2 ^ 16 + S5 l / 2 ^ 15
  /\ X3 b = (S2 l mod 2 ^ 16) * 2 ^ 16 + S0 l / 2 ^ 15.
Proof.
  intros Hl. destruct_lfsr_ok Hl. cbn.
  split_and!; auto using slice_high_low, slice_low_high with zuc.
Qed.

(** ** The S-box layer *)

Lemma fits_top_byte u : fits 32 u -> fits 8 (Z.shiftr u 24).
Proof.
  unfold fits. intros Hu. rewrite Z.shiftr_div_pow2 by lia.
  split; [apply Z.div_pos | apply Z.div_lt_upper_bound]; lia.
Qed.

Lemma fits_byte_field u s : 0 <= u -> 0 <= s -> fits 8 (Z.land (Z.shiftr u s) 0xff).
Proof. intros Hu Hs. apply fits_land_r; [lia | apply Z.shiftr_nonneg; lia | unfold fits; lia]. Qed.

(** Equal byte fields at [s] give equal bits [s .. s + 7]. *)
Lemma byte_bits u v s j :
  Z.land (Z.shiftr u s) 0xff = Z.land (Z.shiftr v s) 0xff -> 0 <= s -> 0 <= j < 8 ->
  Z.testbit u (s + j) = Z.testbit v (s + j).
Proof.
  intros E Hs Hj. apply (f_equal (fun x => Z.testbit x j)) in E.
  rewrite !Z.land_spec, !Z.shiftr_spec, testbit_255 in E by lia.
  rewrite (Z.add_comm s j). destruct (Z.ltb_spec j 8); [|lia]. by rewrite !andb_true_r in E.
Qed.

(** A word is determined by its top byte and its three lower byte fields. *)
Lemma byte_fields_inj u v :
  Z.shiftr u 24 = Z.shiftr v 24 ->
  Z.land (Z.shiftr u 16) 0xff = Z.land (Z.shiftr v 16) 0xff ->
  Z.land (Z.shiftr u 8) 0xff = Z.land (Z.shiftr v 8) 0xff ->
  Z.land u 0xff = Z.land v 0xff -> u = v.
Proof.
  intros E3 E2 E1 E0. rewrite <- (Z.shiftr_0_r u), <- (Z.shiftr_0_r v) in E0.
  apply Z.bits_inj'. intros i Hi.
  destruct (Z.lt_ge_cases i 8); [replace i with (0 + i) by lia; apply byte_bits; auto; lia|].
  destruct (Z.lt_ge_cases i 16); [replace i with (8 + (i - 8)) by lia; apply byte_bits; auto; lia|].
  destruct (Z.lt_ge_cases i 24); [replace i with (16 + (i - 16)) by lia; apply byte_bits; auto; lia|].
  apply (f_equal (fun x => Z.testbit x (i - 24))) in E3.
  rewrite !Z.shiftr_spec in E3 by lia. by replace (i - 24 + 24) with i in E3 by lia.
Qed.

(** C25: The S-box layer of [f_] is injective on 32-bit words, hence a
    bijection of them: [R1] and [R2] are the images of [u] and [v] under
    a permutation, as the standard's S = (S0, S1, S0, S1) requires. *)
Theorem sbox_injective u v : fits 32 u -> fits 32 v -> sbox u = sbox v -> u = v.
Proof.
  intros Hu Hv E. unfold sbox in E. apply (f_equal PutUint32) in E.
  rewrite !PutUint32_makeU32 in E by auto with zuc.
  injection E as E3 E2 E1 E0.
  assert (0 <= u /\ 0 <= v) as [] by (unfold fits in *; lia).
  apply byte_fields_inj.
  - apply (tbl_inj Tables.S0); auto using S0_nodup, length_S0, fits_top_byte.
  - apply (tbl_inj Tables.S1); auto using S1_nodup, length_S1; apply fits_byte_field; lia.
  - apply (tbl_inj Tables.S0); auto using S0_nodup, length_S0; apply fits_byte_field; lia.
  - rewrite <- (Z.shiftr_0_r u), <- (Z.shiftr_0_r v) in E0 |- *.
    apply (tbl_inj Tables.S1); auto using S1_nodup, length_S1; apply fits_byte_field; lia.
Qed.

(** ** Known-answer vectors of [src/zuc_test.go] *)

(** [z := NewZUC(key, iv); ks := z.GenerateKeystream(n)], as the test
    drives the generator. *)
Definition keystream (k iv : list Z) (n : Z) : option (list Z) :=
  z ← NewZUC k iv; '(ks, _) ← GenerateKeystream n z; Some ks.

Definition key3 : list Z :=
  [0x3d; 0x4c; 0x4b; 0xe9; 0x6a; 0x82; 0xfd; 0xae; 0xb5; 0x8f; 0x64; 0x1d; 0xb1; 0x7b; 0x45; 0x5b].
Definition iv3 : list Z :=
  [0x84; 0x31; 0x9a; 0xa8; 0xde; 0x69; 0x15; 0xca; 0x1f; 0x6b; 0xda; 0x6b; 0xfb; 0xd8; 0xc7; 0x66].
Definition key4 : list Z :=
  [0x4d; 0x32; 0x0b; 0xfa; 0xd4; 0xc2; 0x85; 0xbf; 0xd6; 0xb8; 0xbd; 0x00; 0xf3; 0x9d; 0x8b; 0x41].
Definition iv4 : list Z :=
  [0x52; 0x95; 0x9d; 0xab; 0xa0; 0xbf; 0x17; 0x6e; 0xce; 0x2d; 0xc3; 0x15; 0x04; 0x9e; 0xb5; 0x74].

(** Test set 1: the all-zero key and IV give 0x27bede74, 0x018082da. *)
Theorem zuc_test_set_1 :
  keystream (repeat 0 16) (repeat 0 16) 2 = Some [0x27bede74; 0x018082da].
Proof. vm_compute. reflexivity. Qed.

(** Test sets 2 and 3: the all-ones key and IV give 0x0657cfa0,
    0x7096398b; the third key and IV of the test file give 0x14f1c272,
    0x3279c419. *)
Theorem zuc_test_sets_2_3 :
  keystream (repeat 0xff 16) (repeat 0xff 16) 2 = Some [0x0657cfa0; 0x7096398b]
  /\ keystream key3 iv3 2 = Some [0x14f1c272; 0x3279c419].
Proof. split; vm_compute; reflexivity. Qed.

(** Test set 4: words 1, 2 and 2000 of a 2000-word keystream. *)
Theorem zuc_test_set_4 :
  option_map (fun ks => (ks !! 0%nat, ks !! 1%nat, ks !! 1999%nat)) (keystream key4 iv4 2000)
  = Some (Some 0xed4400e7, Some 0x0633e5c5, Some 0x7a574cdb).
Proof. vm_compute. reflexivity. Qed.

(** ** Witnesses *)

(** The generator of test set 1. *)
Definition zuc_zero : ZUC :=
  match NewZUC (repeat 0 16) (repeat 0 16) with Some z => z | None => zuc0 end.

Lemma reachable_NextKey_witness :
  zuc_inv zuc_zero /\ exists w z', NextKey zuc_zero = Some (w, z') /\ fits 32 w /\ reachable z'.
Proof.
  apply reachable_NextKey, (reachable_new (repeat 0 16) (repeat 0 16));
    [decide_concrete
    |decide_concrete
    |vm_compute; reflexivity].
Defined.

Lemma GenerateKeystream_total_witness :
  exists ks z', GenerateKeystream 3 zuc_zero = Some (ks, z') /\ length ks = Z.to_nat 3
    /\ Forall (fits 32) ks /\ reachable z'.
Proof.
  apply GenerateKeystream_total, (reachable_new (repeat 0 16) (repeat 0 16));
    [decide_concrete
    |decide_concrete
    |vm_compute; reflexivity].
Defined.

Lemma GenerateKeystream_rounds_witness :
  GenerateKeystream 2 zuc_zero
  = Some (rounds (Z.to_nat 2) (if is_first zuc_zero then warmup zuc_zero else zuc_zero)).
Proof. apply GenerateKeystream_rounds; [lia | vm_compute; reflexivity]. Defined.

Lemma GenerateKeystream_app_witness :
  GenerateKeystream (1 + 2) zuc_zero =
    go_bind (GenerateKeystream 1)
      (fun ks1 => go_bind (GenerateKeystream 2) (fun ks2 => go_ret (ks1 ++ ks2))) zuc_zero.
Proof. apply GenerateKeystream_app; lia. Defined.

Lemma NewZUC_ok_witness :
  exists z, NewZUC (repeat 0 16) (repeat 0xff 16) = Some z /\ zuc_inv z /\ is_first z = true.
Proof.
  apply NewZUC_ok;
    [decide_concrete
    |decide_concrete
    |simpl; lia | simpl; lia].
Defined.

Lemma NewZUC_short_witness : NewZUC (repeat 0 15) (repeat 0 16) = None.
Proof. apply NewZUC_short. left. simpl. lia. Defined.

Lemma bitReorganization_slices_witness :
  let b := brc (bitReorganization zuc_zero) in
  let l := lfsr zuc_zero in
  X0 b = (S15 l / 2 ^ 15) * 2 ^ 16 + S14 l mod 2 ^ 16
  /\ X1 b = (S11 l mod 2 ^ 16) * 2 ^ 16 + S9 l / 2 ^ 15
  /\ X2 b = (S7 l mod 2 ^ 16) * 2 ^ 16 + S5 l / 2 ^ 15
  /\ X3 b = (S2 l mod 2 ^ 16) * 2 ^ 16 + S0 l / 2 ^ 15.
Proof. apply bitReorganization_slices. decide_concrete. Defined.

Lemma sbox_injective_witness : 0x12345678 = 0x12345678.
Proof. apply (sbox_injective 0x12345678 0x12345678); [unfold fits; lia | unfold fits; lia | reflexivity]. Defined.

Lemma warmup_consumed_witness :
  match GenerateKeystream 2 zuc_zero with
  | Some (ks, z') => is_first z' = false /\ reachable z'
  | None => False
  end.
Proof.
  destruct (GenerateKeystream 2 zuc_zero) as [[ks z']|] eqn:E.
  - apply (warmup_consumed 2 zuc_zero ks z'); [|lia|exact E].
    apply (reachable_new (repeat 0 16) (repeat 0 16));
      [decide_concrete | decide_concrete | vm_compute; reflexivity].
  - vm_compute in E. discriminate.
Defined.
