(* ===== verification/Keystream.v ===== *)
(** * Keystream: what the generator promises to EEA3 and EIA3

    [src/eea3/eea3.go] and [src/eia3/eia3.go] use their [*zuc.ZUC] only
    through [GenerateKeystream].  The class [KeystreamSource] states what
    they rely on: on a usable state, drawing [n] words terminates without
    panic, returns [n] words of 32 bits and leaves a usable state; and
    whatever it returns has [n] words.  The theorems of [Eea3] and [Eia3]
    use these laws only; the instance for [ZUC] discharges them with the
    generator's invariant [zuc_inv]. *)

From S2P Require Import Prelude Words Tables Lfsr Zuc.

Class KeystreamSource (S : Type) := {
  ks_draw : Z -> Go S (list Z);
  ks_usable : S -> Prop;
  ks_draw_total n s :
    ks_usable s ->
    exists ks s', ks_draw n s = Some (ks, s') /\ length ks = Z.to_nat n
      /\ Forall (fits 32) ks /\ ks_usable s';
  ks_draw_length n s ks s' : ks_draw n s = Some (ks, s') -> length ks = Z.to_nat n
}.

(** [GenerateKeystream] is the loop of [Zuc] run [length] times. *)
Lemma gen_keystream_total n z :
  zuc_inv z ->
  exists ks z', GenerateKeystream n z = Some (ks, z') /\ length ks = Z.to_nat n
    /\ Forall (fits 32) ks /\ zuc_inv z'.
Proof. unfold GenerateKeystream. apply gen_loop_total. Qed.

Lemma GenerateKeystream_length n z ks z' :
  GenerateKeystream n z = Some (ks, z') -> length ks = Z.to_nat n.
Proof. apply gen_loop_length. Qed.

(** The generator of [src/zuc.go] is a keystream source. *)
#[export] Instance zuc_keystream : KeystreamSource ZUC := {|
  ks_draw := GenerateKeystream;
  ks_usable := zuc_inv;
  ks_draw_total := gen_keystream_total;
  ks_draw_length := GenerateKeystream_length
|}.

(** The laws at the generator, as the clients use them. *)
Lemma draw_total n z :
  zuc_inv z ->
  exists ks z', GenerateKeystream n z = Some (ks, z') /\ length ks = Z.to_nat n
    /\ Forall (fits 32) ks /\ zuc_inv z'.
Proof. exact (ks_draw_total (S := ZUC) n z). Qed.

Lemma draw_length n z ks z' :
  GenerateKeystream n z = Some (ks, z') -> length ks = Z.to_nat n.
Proof. exact (ks_draw_length (S := ZUC) n z ks z'). Qed.
