(* ===== verification/Eea3.v ===== *)
(** * Eea3: the confidentiality algorithm 128-EEA3 of [src/eea3/eea3.go]

    [EEA3] holds the pointer to the [ZUC] generator that [NewEEA3] creates
    from the key and the IV it builds out of [count], [bearer] and
    [direction].  [Encrypt] draws [ceil(blength/32)] keystream words from
    that generator (so it changes the state of the [EEA3]), XORs the first
    [ceil(blength/8)] bytes of the message with the keystream bytes, masks
    the bits past [blength] in the last byte and zeroes the rest of the
    output.  [Decrypt] is [Encrypt].

    The model follows the code statement by statement: the IV is built by
    the same slice writes ([list_inserts] is Go's [copy] into a slice),
    the two nested loops and the zeroing loop are [Fixpoint]s whose fuel is
    their trip count, every slice access is a panicking [load]/[store],
    and [Encrypt] runs in the monad [Go EEA3].

    The theorems: the IV layout; [Encrypt] computes the byte-level
    function [eea3_spec] of the keystream; [eea3_spec] masks the partial
    byte and the padding, keeps the length, and applied twice with the
    same keystream gives the message truncated to [blength] bits, so two
    transforms built from the same parameters decrypt what the other
    encrypts; reusing one transform does not, since the keystream moves
    on; [Encrypt] reads only the first [blength] bits of the message and
    panics on a message shorter than [ceil(blength/8)] bytes; and for
    [blength] within 31 of 2^32 the [uint32] sum
    [blength + 31] wraps, no keystream is drawn and the output is all
    zero. *)

From S2P Require Import Prelude Words Tables Lfsr Zuc Keystream.

(** ** State and construction *)

Record EEA3 := mkEEA3 { zuc : ZUC }.

(** The IV of [NewEEA3]: [iv := make([]byte, 16)], the count big-endian
    in [iv[:4]], the bearer and direction byte in [iv[4]], then the two
    [copy] calls. *)
Definition eea3_iv (count bearer direction : Z) : list Z :=
  let iv := replicate 16 0 in
  let iv := list_inserts 0 (PutUint32 count) iv in
  let iv := <[4%nat := u8 (Z.lor (u32 (Z.shiftl bearer 3))
                                 (Z.land (u32 (Z.shiftl (Z.land direction 1) 2)) 0xfc))]> iv in
  let iv := list_inserts 8 (take 4 iv) iv in
  list_inserts 12 (take 4 (drop 4 iv)) iv.

(** [NewEEA3(ck, count, bearer, direction)]; [NewZUC] panics on a short
    key. *)
Definition NewEEA3 (ck : list Z) (count bearer direction : Z) : option EEA3 :=
  z ← NewZUC ck (eea3_iv count bearer direction); Some (mkEEA3 z).

(** ** [Encrypt] *)

(** [output[4*i+j] = m[4*i+j] ^ uint8((ks[i]>>(8*(3-j)))&0xff)]. *)
Definition xor_byte (ks m output : list Z) (i j : Z) : option (list Z) :=
  k ← load ks i;
  b ← load m (4 * i + j);
  store output (4 * i + j) (Z.lxor b (u8 (Z.land (Z.shiftr k (8 * (3 - j))) 0xff))).

(** [for j := 0; j < 4 && i*4+j < int(length); j += 1]: at most four
    iterations, the fuel. *)
Fixpoint inner_loop (fuel : nat) (ks m : list Z) (length i j : Z) (output : list Z)
  : option (list Z) :=
  match fuel with
  | O => Some output
  | S fuel =>
      if (j <? 4) && (i * 4 + j <? length) then
        output ← xor_byte ks m output i j;
        inner_loop fuel ks m length i (j + 1) output
      else Some output
  end.

(** [for i := 0; i < int(keylength); i += 1]: [n] iterations left. *)
Fixpoint outer_loop (n : nat) (ks m : list Z) (length i : Z) (output : list Z)
  : option (list Z) :=
  match n with
  | O => Some output
  | S n =>
      output ← inner_loop 4 ks m length i 0 output;
      outer_loop n ks m length (i + 1) output
  end.

(** [for j := int(length); j < len(output); j += 1 { output[j] = 0 }]. *)
Fixpoint zero_loop (n : nat) (j : Z) (output : list Z) : option (list Z) :=
  match n with
  | O => Some output
  | S n => output ← store output j 0; zero_loop n (j + 1) output
  end.

(** The part of [Encrypt] after the keystream is drawn: a function of
    the keystream [ks], the message and the bit length. *)
Definition encrypt_ks (ks m : list Z) (blength : Z) : option (list Z) :=
  let zeroBits := Z.land blength 7 in
  let keylength := u32 (blength + 31) / 32 in
  let length := Z.shiftr blength 3 in
  let length := if 0 <? zeroBits then u32 (length + 1) else length in
  let output := replicate (List.length m) 0 in
  output ← outer_loop (Z.to_nat keylength) ks m length 0 output;
  output ← (if 0 <? zeroBits then
              v ← load output (u32 (length - 1));
              store output (u32 (length - 1)) (Z.land v (u8 (Z.shiftl 0xff (8 - zeroBits))))
            else Some output);
  zero_loop (Z.to_nat (Z.of_nat (List.length output) - length)) length output.

(** [(e *EEA3) Encrypt(m, blength)]: [keylength := (blength + 31) / 32]
    in [uint32], then [ks := e.zuc.GenerateKeystream(keylength)]. *)
Definition Encrypt (m : list Z) (blength : Z) : Go EEA3 (list Z) := fun e =>
  let keylength := u32 (blength + 31) / 32 in
  '(ks, z) ← GenerateKeystream keylength (zuc e);
  out ← encrypt_ks ks m blength;
  Some (out, mkEEA3 z).

(** [(e *EEA3) Decrypt(m, blength)]: [return e.Encrypt(m, blength)]. *)
Definition Decrypt (m : list Z) (blength : Z) : Go EEA3 (list Z) := Encrypt m blength.

(** ** Specification *)

(** The keystream as bytes: word [i] gives bytes [4i .. 4i+3], most
    significant first. *)
Definition ks_bytes (ks : list Z) : list Z := concat (map PutUint32 ks).

(** [ceil(blength / 8)]: the bytes that carry message bits. *)
Definition nbytes (blength : Z) : Z := (blength + 7) / 8.

(** The mask that keeps the top [r] bits of a byte. *)
Definition top_bits (r : Z) : Z := 2 ^ 8 - 2 ^ (8 - r).

(** The confidentiality transform as the spec states it: each of the
    first [nbytes] bytes XORed with its keystream byte, the bits of the
    last one past [blength] cleared, every later byte zero. *)
Definition eea3_spec (ks m : list Z) (blength : Z) : list Z :=
  imap (fun b x =>
          let b := Z.of_nat b in
          if b <? nbytes blength then
            let y := Z.lxor x (nth (Z.to_nat b) (ks_bytes ks) 0) in
            if (b =? nbytes blength - 1) && (0 <? blength mod 8)
            then Z.land y (top_bits (blength mod 8)) else y
          else 0) m.

(** The message truncated to its first [blength] bits. *)
Definition truncate (m : list Z) (blength : Z) : list Z :=
  imap (fun b x =>
          let b := Z.of_nat b in
          if b <? nbytes blength then
            if (b =? nbytes blength - 1) && (0 <? blength mod 8)
            then Z.land x (top_bits (blength mod 8)) else x
          else 0) m.

(** ** Helper lemmas *)

Lemma length_ks_bytes ks : length (ks_bytes ks) = (4 * length ks)%nat.
Proof.
  unfold ks_bytes. induction ks as [|w ks IH]; [done|]. cbn [map concat].
  rewrite length_app, IH. cbn. lia.
Qed.

(** Byte [b] of the keystream is the shift-and-mask expression of the
    code. *)
Lemma ks_bytes_lookup ks (i j : nat) k :
  ks !! i = Some k -> (j < 4)%nat ->
  ks_bytes ks !! (4 * i + j)%nat = Some (u8 (Z.land (Z.shiftr k (8 * (3 - Z.of_nat j))) 0xff)).
Proof.
  unfold ks_bytes. revert i. induction ks as [|w ks IH]; intros i Hk Hj; [done|].
  destruct i as [|i]; cbn [map concat].
  - injection Hk as ->. rewrite lookup_app_l by (rewrite length_PutUint32; lia).
    unfold PutUint32. f_equal.
    destruct j as [|[|[|[|j]]]]; try lia; cbn -[Z.shiftr]; f_equal; bitwise.
  - rewrite lookup_app_r by (rewrite length_PutUint32; lia). rewrite length_PutUint32.
    replace (4 * S i + j - 4)%nat with (4 * i + j)%nat by lia. apply IH; auto.
Qed.

Section Loops.
(** The loops of [encrypt_ks] for a fixed keystream [ks], message [m]
    and byte count [L] (the code's [length]).  The message may be
    shorter than [L]; each lemma says which of its bytes it reads. *)
Context (ks m : list Z) (L : nat).

(** Byte indices [4 * i + j] stay folded under [simpl]. *)
#[local] Arguments Nat.mul : simpl never.

(** The output after the first [c] bytes are written. *)
Definition stage (c : nat) : list Z :=
  imap (fun b x => if (b <? c)%nat && (b <? L)%nat
                   then Z.lxor x (nth b (ks_bytes ks) 0) else 0) m.

Lemma length_stage c : length (stage c) = length m.
Proof. apply length_imap. Qed.

Lemma stage_sat c c' : (L <= c)%nat -> (L <= c')%nat -> stage c = stage c'.
Proof.
  intros Hc Hc'. apply list_eq. intros b. unfold stage. rewrite !list_lookup_imap.
  destruct (m !! b); simpl; [|done].
  destruct (Nat.ltb_spec b c), (Nat.ltb_spec b c'), (Nat.ltb_spec b L); simpl; done || lia.
Qed.

(** One iteration of the inner loop writes byte [4i+j]. *)
Lemma stage_step (i j : nat) :
  (4 * i + j < L)%nat -> (4 * i + j < length m)%nat -> (i < length ks)%nat -> (j < 4)%nat ->
  xor_byte ks m (stage (4 * i + j)) (Z.of_nat i) (Z.of_nat j) = Some (stage (4 * i + j + 1)).
Proof.
  intros Hb Hbm Hi Hj. unfold xor_byte.
  destruct (lookup_lt_is_Some_2 ks i Hi) as [k Hk].
  destruct (lookup_lt_is_Some_2 m (4 * i + j) ltac:(lia)) as [x Hx].
  pose proof (nth_lookup_Some _ _ 0 _ (ks_bytes_lookup ks i j k Hk Hj)) as Hn.
  replace (4 * Z.of_nat i + Z.of_nat j) with (Z.of_nat (4 * i + j)) by lia.
  remember (4 * i + j)%nat as c eqn:Hc.
  rewrite !load_lookup, Hk, Hx. simpl.
  rewrite store_lookup by (rewrite length_stage; lia). f_equal.
  apply list_eq. intros b. unfold stage.
  destruct (decide (b = c)) as [->|Hne].
  - rewrite list_lookup_insert_eq by (rewrite length_imap; lia).
    rewrite list_lookup_imap, Hx. simpl.
    destruct (Nat.ltb_spec c (c + 1)), (Nat.ltb_spec c L); try lia.
    simpl. by rewrite Hn.
  - rewrite list_lookup_insert_ne by congruence. rewrite !list_lookup_imap.
    destruct (m !! b); simpl; [|done].
    destruct (Nat.ltb_spec b c), (Nat.ltb_spec b (c + 1)); try lia; done.
Qed.

(** The inner loop writes the bytes of word [i] that lie below [L]. *)
Lemma inner_loop_stage fuel (i j : nat) :
  (i < length ks)%nat -> (Nat.min (4 * i + 4) L <= length m)%nat ->
  (j <= 4)%nat -> (4 - j <= fuel)%nat ->
  inner_loop fuel ks m (Z.of_nat L) (Z.of_nat i) (Z.of_nat j) (stage (4 * i + j))
  = Some (stage (4 * i + 4)).
Proof.
  intros Hi Hm. revert j. induction fuel as [|fuel IH]; intros j Hj Hf.
  - replace j with 4%nat by lia. reflexivity.
  - cbn [inner_loop].
    destruct (Z.ltb_spec (Z.of_nat j) 4), (Z.ltb_spec (Z.of_nat i * 4 + Z.of_nat j) (Z.of_nat L));
      simpl.
    + rewrite stage_step by lia. simpl.
      replace (Z.of_nat j + 1) with (Z.of_nat (j + 1)) by lia.
      replace (4 * i + j + 1)%nat with (4 * i + (j + 1))%nat by lia.
      apply IH; lia.
    + f_equal. apply stage_sat; lia.
    + replace j with 4%nat by lia. reflexivity.
    + replace j with 4%nat by lia. reflexivity.
Qed.

(** The outer loop over words [i .. i + n - 1]. *)
Lemma outer_loop_stage n (i : nat) :
  (i + n <= length ks)%nat -> (Nat.min (4 * (i + n)) L <= length m)%nat ->
  outer_loop n ks m (Z.of_nat L) (Z.of_nat i) (stage (4 * i)) = Some (stage (4 * (i + n))).
Proof.
  revert i. induction n as [|n IH]; intros i Hn Hm.
  - by rewrite Nat.add_0_r.
  - cbn [outer_loop].
    pose proof (inner_loop_stage 4 i 0 ltac:(lia) ltac:(lia) ltac:(lia) ltac:(lia)) as Hin.
    rewrite Nat.add_0_r in Hin. change (Z.of_nat 0) with 0 in Hin. rewrite Hin. simpl.
    replace (Z.of_nat i + 1) with (Z.of_nat (S i)) by lia.
    replace (4 * i + 4)%nat with (4 * S i)%nat by lia.
    rewrite IH by lia. do 2 f_equal. lia.
Qed.

(** A message that ends inside word [q] while the loop bound [L] lies
    past its end: the inner loop writes the bytes the message has and
    panics reading [m[len(m)]]. *)
Lemma inner_loop_short fuel (q j : nat) :
  (q < length ks)%nat -> (4 * q + j <= length m < 4 * q + 4)%nat -> (length m < L)%nat ->
  (4 - j <= fuel)%nat ->
  inner_loop fuel ks m (Z.of_nat L) (Z.of_nat q) (Z.of_nat j) (stage (4 * q + j)) = None.
Proof.
  intros Hq. revert j. induction fuel as [|fuel IH]; intros j Hj HL Hf; [lia|].
  cbn [inner_loop].
  destruct (Z.ltb_spec (Z.of_nat j) 4), (Z.ltb_spec (Z.of_nat q * 4 + Z.of_nat j) (Z.of_nat L));
    try lia; simpl.
  destruct (decide (4 * q + j = length m)%nat) as [Hend|Hin].
  - unfold xor_byte. destruct (lookup_lt_is_Some_2 ks q Hq) as [k Hk].
    rewrite load_lookup, Hk. simpl. by rewrite load_None by lia.
  - rewrite stage_step by lia. simpl.
    replace (Z.of_nat j + 1) with (Z.of_nat (j + 1)) by lia.
    replace (4 * q + j + 1)%nat with (4 * q + (j + 1))%nat by lia.
    apply IH; lia.
Qed.
End Loops.

(** The outer loop over [a + b] words is the loop over [a] words, then
    the loop over [b] words from word [i + a]. *)
Lemma outer_loop_add a b ks m L i out :
  outer_loop (a + b) ks m L i out
  = (out' ← outer_loop a ks m L i out; outer_loop b ks m L (i + Z.of_nat a) out').
Proof.
  revert i out. induction a as [|a IH]; intros i out; cbn [outer_loop Nat.add].
  - simpl. by rewrite Z.add_0_r.
  - destruct (inner_loop 4 ks m L i 0 out); simpl; [|done].
    rewrite IH. by replace (i + 1 + Z.of_nat a) with (i + Z.of_nat (S a)) by lia.
Qed.

(** The zeroing loop stores zeros where there are zeros already. *)
Lemma zero_loop_id n (j : nat) (out : list Z) :
  (j + n <= length out)%nat -> (forall b, (j <= b < j + n)%nat -> out !! b = Some 0) ->
  zero_loop n (Z.of_nat j) out = Some out.
Proof.
  revert j. induction n as [|n IH]; intros j Hl Hz; [done|]. cbn [zero_loop].
  rewrite store_lookup by lia. simpl. rewrite list_insert_id by (apply Hz; lia).
  replace (Z.of_nat j + 1) with (Z.of_nat (S j)) by lia. apply IH; [lia|].
  intros b Hb. apply Hz. lia.
Qed.

(** The byte count of the code, [blength >> 3] plus one for a partial
    byte, is [ceil(blength / 8)] when [blength] is a [uint32]. *)
Lemma code_length blength :
  0 <= blength < 2 ^ 32 ->
  (if 0 <? Z.land blength 7 then u32 (Z.shiftr blength 3 + 1) else Z.shiftr blength 3)
  = nbytes blength.
Proof.
  intros Hb. change 7 with (Z.ones 3). rewrite Z.land_ones, Z.shiftr_div_pow2 by lia.
  unfold nbytes. change (2 ^ 3) with 8.
  destruct (Z.ltb_spec 0 (blength mod 8)).
  - rewrite u32_small by (unfold fits; Z.div_mod_to_equations; lia).
    Z.div_mod_to_equations; lia.
  - Z.div_mod_to_equations; lia.
Qed.

(** The shifted mask of the code keeps the top [r] bits. *)
Lemma code_mask r : 1 <= r <= 7 -> u8 (Z.shiftl 0xff (8 - r)) = top_bits r.
Proof.
  intros Hr. assert (r = 1 \/ r = 2 \/ r = 3 \/ r = 4 \/ r = 5 \/ r = 6 \/ r = 7)
    as Hc by lia.
  destruct_or! Hc; subst; reflexivity.
Qed.

Lemma stage_zero ks m L : stage ks m L 0 = replicate (length m) 0.
Proof.
  apply list_eq. intros b. unfold stage. rewrite list_lookup_imap.
  destruct (m !! b) eqn:E; simpl.
  - rewrite lookup_replicate_2; [done|]. by apply lookup_lt_Some in E.
  - symmetry. apply lookup_replicate_None. apply lookup_ge_None in E. lia.
Qed.

(** With every byte written, the output is [eea3_spec] before the mask
    of the last byte. *)
Lemma stage_spec ks m blength L (b : nat) :
  L = Z.to_nat (nbytes blength) -> 0 <= blength ->
  stage ks m L L !! b
  = (fun x => if Z.of_nat b <? nbytes blength
              then Z.lxor x (nth b (ks_bytes ks) 0) else 0) <$> m !! b.
Proof.
  intros -> Hb. unfold stage. rewrite list_lookup_imap. destruct (m !! b); [|done]. simpl.
  assert (0 <= nbytes blength) by (unfold nbytes; apply Z.div_pos; lia).
  destruct (Nat.ltb_spec b (Z.to_nat (nbytes blength))), (Z.ltb_spec (Z.of_nat b) (nbytes blength));
    simpl; done || lia.
Qed.

Lemma nbytes_nonneg blength : 0 <= blength -> 0 <= nbytes blength.
Proof. intros. unfold nbytes. apply Z.div_pos; lia. Qed.

Lemma length_eea3_spec ks m blength : length (eea3_spec ks m blength) = length m.
Proof. apply length_imap. Qed.

Lemma eea3_spec_tail ks m blength (b : nat) :
  nbytes blength <= Z.of_nat b -> (b < length m)%nat -> eea3_spec ks m blength !! b = Some 0.
Proof.
  intros Hb Hl. unfold eea3_spec. rewrite list_lookup_imap.
  destruct (lookup_lt_is_Some_2 m b Hl) as [x ->]. simpl.
  destruct (Z.ltb_spec (Z.of_nat b) (nbytes blength)); [lia | done].
Qed.

(** Without a partial byte, the written output is the specification. *)
Lemma stage_eea3_spec ks m blength :
  0 <= blength -> blength mod 8 = 0 ->
  stage ks m (Z.to_nat (nbytes blength)) (Z.to_nat (nbytes blength)) = eea3_spec ks m blength.
Proof.
  intros H0 Hr. apply list_eq. intros b. rewrite (stage_spec _ _ blength) by (done || lia).
  unfold eea3_spec. rewrite list_lookup_imap. destruct (m !! b); [|done]. simpl.
  rewrite Hr. destruct (Z.ltb_spec (Z.of_nat b) (nbytes blength)); [|done].
  rewrite Nat2Z.id. by rewrite andb_false_r.
Qed.

(** With a partial byte, masking the last written byte gives the
    specification. *)
Lemma mask_eea3_spec ks m blength :
  0 <= blength -> 0 < blength mod 8 -> nbytes blength <= Z.of_nat (length m) ->
  let L := Z.to_nat (nbytes blength) in
  (v ← load (stage ks m L L) (nbytes blength - 1);
   store (stage ks m L L) (nbytes blength - 1) (Z.land v (top_bits (blength mod 8))))
  = Some (eea3_spec ks m blength).
Proof.
  intros H0 Hr Hm L.
  assert (HN : 1 <= nbytes blength) by (unfold nbytes; Z.div_mod_to_equations; lia).
  replace (nbytes blength - 1) with (Z.of_nat (L - 1)) by lia.
  destruct (lookup_lt_is_Some_2 m (L - 1) ltac:(lia)) as [x Hx].
  rewrite load_lookup, (stage_spec _ _ blength L), Hx by (done || lia). simpl.
  rewrite store_lookup by (rewrite length_stage; lia). f_equal.
  apply list_eq. intros b. unfold eea3_spec. rewrite list_lookup_imap.
  destruct (decide (b = L - 1)%nat) as [->|Hne].
  - rewrite list_lookup_insert_eq by (rewrite length_stage; lia). rewrite Hx. simpl.
    destruct (Z.ltb_spec (Z.of_nat (L - 1)) (nbytes blength)); [|lia].
    destruct (Z.eqb_spec (Z.of_nat (L - 1)) (nbytes blength - 1)); [|lia].
    destruct (Z.ltb_spec 0 (blength mod 8)); [|lia]. by rewrite Nat2Z.id.
  - rewrite list_lookup_insert_ne by congruence.
    rewrite (stage_spec _ _ blength L) by (done || lia).
    destruct (m !! b); [|done]. simpl.
    destruct (Z.ltb_spec (Z.of_nat b) (nbytes blength)); [|done].
    destruct (Z.eqb_spec (Z.of_nat b) (nbytes blength - 1)); [lia|]. by rewrite Nat2Z.id.
Qed.

(** The keystream bytes and the reference transform are bytes. *)
Lemma ks_bytes_fits ks : Forall (fits 8) (ks_bytes ks).
Proof.
  unfold ks_bytes. apply Forall_concat, Forall_forall. intros l Hl.
  apply list_elem_of_fmap in Hl as (w & -> & _). apply fits_PutUint32.
Qed.

Lemma eea3_spec_bytes ks m blength :
  Forall (fits 8) m -> Forall (fits 8) (eea3_spec ks m blength).
Proof.
  intros Hm. apply Forall_lookup. intros b y. unfold eea3_spec. rewrite list_lookup_imap.
  destruct (m !! b) as [x|] eqn:Ex; [|discriminate]. cbn. intros [= <-].
  assert (Fx : fits 8 x) by (rewrite Forall_lookup in Hm; eauto).
  assert (Fk : fits 8 (nth b (ks_bytes ks) 0)).
  { destruct (nth_in_or_default b (ks_bytes ks) 0) as [Hin | ->]; [|unfold fits; lia].
    pose proof (ks_bytes_fits ks) as F. rewrite Forall_forall in F.
    by apply F, list_elem_of_In. }
  rewrite Nat2Z.id. destruct (_ <? _); [|unfold fits; lia].
  assert (fits 8 (Z.lxor x (nth b (ks_bytes ks) 0))) by (apply fits_lxor; auto; lia).
  destruct (_ && _); [apply fits_land_l; auto; lia | done].
Qed.

(** ** Theorems *)

(** [Encrypt] after the keystream is drawn computes [eea3_spec]: when
    [blength + 31] does not wrap, the message has its [ceil(blength/8)]
    bytes and the keystream its [ceil(blength/32)] words, the loops, the
    mask and the zeroing produce exactly the specified bytes. *)
Theorem encrypt_ks_spec ks m blength :
  0 <= blength -> blength + 31 < 2 ^ 32 -> nbytes blength <= Z.of_nat (length m) ->
  length ks = Z.to_nat ((blength + 31) / 32) ->
  encrypt_ks ks m blength = Some (eea3_spec ks m blength).
Proof.
  intros H0 H1 Hm Hks. unfold encrypt_ks. cbv zeta.
  rewrite code_length by lia. rewrite (u32_small (blength + 31)) by (unfold fits; lia).
  pose proof (nbytes_nonneg blength H0) as HN.
  set (L := Z.to_nat (nbytes blength)).
  assert (HL : Z.of_nat L = nbytes blength) by lia.
  assert (HLm : (L <= length m)%nat) by lia.
  assert (Hkl : (L <= 4 * Z.to_nat ((blength + 31) / 32))%nat)
    by (unfold L, nbytes; Z.div_mod_to_equations; lia).
  rewrite <- (stage_zero ks m L).
  pose proof (outer_loop_stage ks m L (Z.to_nat ((blength + 31) / 32)) 0 ltac:(lia) ltac:(lia))
    as Ho.
  rewrite Nat.add_0_l in Ho. change (4 * 0)%nat with 0%nat in Ho.
  rewrite HL in Ho. change (Z.of_nat 0) with 0 in Ho.
  rewrite Ho. cbn [mbind option_bind].
  rewrite (stage_sat ks m L _ L) by lia.
  change 7 with (Z.ones 3). rewrite Z.land_ones by lia. change (2 ^ 3) with 8.
  destruct (Z.ltb_spec 0 (blength mod 8)) as [Hr|Hr].
  - rewrite (u32_small (nbytes blength - 1)) by (unfold fits, nbytes in *; Z.div_mod_to_equations; lia).
    rewrite code_mask by (pose proof (Z.mod_pos_bound blength 8); lia).
    unfold L. rewrite mask_eea3_spec by lia. cbn [mbind option_bind].
    rewrite length_eea3_spec, <- HL.
    replace (Z.to_nat (Z.of_nat (length m) - Z.of_nat L)) with (length m - L)%nat by lia.
    apply zero_loop_id; [rewrite length_eea3_spec; lia|].
    intros b Hb. apply eea3_spec_tail; lia.
  - assert (Hr0 : blength mod 8 = 0) by (pose proof (Z.mod_pos_bound blength 8); lia).
    replace (stage ks m L L) with (eea3_spec ks m blength)
      by (symmetry; apply stage_eea3_spec; lia).
    cbn [mbind option_bind]. rewrite length_eea3_spec, <- HL.
    replace (Z.to_nat (Z.of_nat (length m) - Z.of_nat L)) with (length m - L)%nat by lia.
    apply zero_loop_id; [rewrite length_eea3_spec; lia|].
    intros b Hb. apply eea3_spec_tail; lia.
Qed.

(** A message shorter than [ceil(blength / 8)] bytes makes [encrypt_ks]
    panic: the loop reads [m[len(m)]]. *)
Lemma encrypt_ks_short ks m blength :
  0 <= blength -> blength + 31 < 2 ^ 32 -> Z.of_nat (length m) < nbytes blength ->
  length ks = Z.to_nat ((blength + 31) / 32) ->
  encrypt_ks ks m blength = None.
Proof.
  intros H0 H1 Hm Hks. unfold encrypt_ks. cbv zeta.
  rewrite code_length by lia. rewrite (u32_small (blength + 31)) by (unfold fits; lia).
  set (L := Z.to_nat (nbytes blength)).
  assert (HL : Z.of_nat L = nbytes blength) by (pose proof (nbytes_nonneg blength H0); lia).
  set (q := (length m / 4)%nat).
  assert (Hq : (4 * q <= length m < 4 * q + 4)%nat)
    by (unfold q; pose proof (Nat.div_mod (length m) 4); pose proof (Nat.mod_upper_bound (length m) 4); lia).
  assert (Hqn : (q < Z.to_nat ((blength + 31) / 32))%nat)
    by (unfold nbytes in Hm; Z.div_mod_to_equations; lia).
  replace (Z.to_nat ((blength + 31) / 32)) with (q + S (Z.to_nat ((blength + 31) / 32) - q - 1))%nat
    by lia.
  rewrite outer_loop_add, <- (stage_zero ks m L), <- HL.
  pose proof (outer_loop_stage ks m L q 0 ltac:(lia) ltac:(lia)) as Ho.
  change (Z.of_nat 0) with 0 in Ho. change (4 * 0)%nat with 0%nat in Ho.
  rewrite Ho. cbn [mbind option_bind outer_loop].
  replace (0 + Z.of_nat q) with (Z.of_nat q) by lia.
  replace (4 * (0 + q))%nat with (4 * q + 0)%nat by lia.
  pose proof (inner_loop_short ks m L 4 q 0 ltac:(lia) ltac:(lia) ltac:(lia) ltac:(lia)) as Hi.
  change (Z.of_nat 0) with 0 in Hi. rewrite Hi. reflexivity.
Qed.

(** Applying the specified transform twice with the same keystream gives
    the message truncated to [blength] bits: XOR with the keystream
    cancels, the mask and the zero padding stay. *)
Lemma length_truncate m blength : length (truncate m blength) = length m.
Proof. apply length_imap. Qed.

(** The transform reads only the first [blength] bits of the message. *)
Lemma eea3_spec_truncate ks m blength :
  eea3_spec ks (truncate m blength) blength = eea3_spec ks m blength.
Proof.
  apply list_eq. intros b. unfold eea3_spec, truncate.
  rewrite !list_lookup_imap. destruct (m !! b); [|done]. simpl.
  destruct (Z.of_nat b <? nbytes blength); [|done].
  destruct ((Z.of_nat b =? nbytes blength - 1) && (0 <? blength mod 8)); f_equal; bitwise.
Qed.

Theorem eea3_spec_twice ks m blength :
  eea3_spec ks (eea3_spec ks m blength) blength = truncate m blength.
Proof.
  apply list_eq. intros b. unfold eea3_spec, truncate.
  rewrite !list_lookup_imap. destruct (m !! b); [|done]. simpl.
  destruct (Z.of_nat b <? nbytes blength); [|done].
  destruct ((Z.of_nat b =? nbytes blength - 1) && (0 <? blength mod 8)); f_equal; bitwise.
Qed.

Lemma top_bits_ones r : 0 <= r <= 8 -> top_bits r = Z.shiftl (Z.ones r) (8 - r).
Proof.
  intros Hr. unfold top_bits. rewrite Z.shiftl_mul_pow2, Z.ones_equiv by lia.
  rewrite <- Z.sub_1_r.
  replace (2 ^ 8) with (2 ^ r * 2 ^ (8 - r)) by (rewrite <- Z.pow_add_r by lia; f_equal; lia).
  ring.
Qed.

(** The output has the length of the message, every byte past
    [ceil(blength/8)] is zero, and the bits of the last meaningful byte
    past [blength] are zero. *)
Theorem eea3_spec_masking ks m blength :
  0 <= blength ->
  length (eea3_spec ks m blength) = length m
  /\ (forall b : nat, nbytes blength <= Z.of_nat b -> (b < length m)%nat ->
        eea3_spec ks m blength !! b = Some 0)
  /\ (0 < blength mod 8 -> forall y,
        eea3_spec ks m blength !! Z.to_nat (nbytes blength - 1) = Some y ->
        Z.land y (Z.ones (8 - blength mod 8)) = 0).
Proof.
  intros H0. split; [apply length_eea3_spec|]. split; [apply eea3_spec_tail|].
  intros Hr y Hy. pose proof (Z.mod_pos_bound blength 8 ltac:(lia)) as Hb.
  assert (HN : 1 <= nbytes blength) by (unfold nbytes; Z.div_mod_to_equations; lia).
  unfold eea3_spec in Hy. rewrite list_lookup_imap in Hy.
  destruct (m !! _); simpl in Hy; [|discriminate]. injection Hy as <-.
  rewrite Z2Nat.id by lia.
  destruct (Z.ltb_spec (nbytes blength - 1) (nbytes blength)); [|lia].
  rewrite Z.eqb_refl. destruct (Z.ltb_spec 0 (blength mod 8)); [|lia]. simpl.
  rewrite top_bits_ones by lia.
  apply Z.bits_inj'; intros i Hi. rewrite Z.bits_0. autorewrite with zbits.
  split_bit_cases; try lia; btauto.
Qed.

(** [Encrypt] on a usable generator draws [ceil(blength/32)] words and
    returns [eea3_spec] of them. *)
Lemma encrypt_eq e (m : list Z) blength :
  zuc_inv (zuc e) -> 0 <= blength -> blength + 31 < 2 ^ 32 ->
  nbytes blength <= Z.of_nat (length m) ->
  exists ks z', GenerateKeystream ((blength + 31) / 32) (zuc e) = Some (ks, z')
    /\ zuc_inv z'
    /\ forall m' : list Z, length m' = length m ->
         Encrypt m' blength e = Some (eea3_spec ks m' blength, mkEEA3 z').
Proof.
  intros Hz H0 H1 Hm.
  destruct (draw_total ((blength + 31) / 32) (zuc e) Hz) as (ks & z' & Hg & Hl & _ & Hz').
  exists ks, z'. split_and!; [done | done |]. intros m' Hm'.
  unfold Encrypt. rewrite (u32_small (blength + 31)) by (unfold fits; lia).
  rewrite Hg. cbn [mbind option_bind]. rewrite encrypt_ks_spec by (lia || done). reflexivity.
Qed.

(** C6: [Encrypt] refines the specification: on a usable generator and a
    [blength] whose [+ 31] does not wrap, it draws [ceil(blength/32)]
    keystream words and returns [eea3_spec] of them. *)
Theorem Encrypt_spec e (m : list Z) blength :
  zuc_inv (zuc e) -> 0 <= blength -> blength + 31 < 2 ^ 32 ->
  nbytes blength <= Z.of_nat (length m) ->
  exists ks z', GenerateKeystream ((blength + 31) / 32) (zuc e) = Some (ks, z')
    /\ Encrypt m blength e = Some (eea3_spec ks m blength, mkEEA3 z').
Proof.
  intros Hz H0 H1 Hm. destruct (encrypt_eq e m blength Hz H0 H1 Hm) as (ks & z' & Hg & _ & He).
  exists ks, z'. split; [done | by apply He].
Qed.

(** C7: Decryption by a transform in the same state inverts encryption, up to
    the bits past [blength]: [Decrypt] of the ciphertext gives back the
    message truncated to [blength] bits, and the message itself when its
    padding is already clear. *)
Theorem Decrypt_Encrypt e (m : list Z) blength :
  zuc_inv (zuc e) -> 0 <= blength -> blength + 31 < 2 ^ 32 ->
  nbytes blength <= Z.of_nat (length m) ->
  exists c e', Encrypt m blength e = Some (c, e')
    /\ Decrypt c blength e = Some (truncate m blength, e').
Proof.
  intros Hz H0 H1 Hm. destruct (encrypt_eq e m blength Hz H0 H1 Hm) as (ks & z' & _ & _ & He).
  exists (eea3_spec ks m blength), (mkEEA3 z'). split; [by apply He|].
  unfold Decrypt. rewrite He by apply length_eea3_spec. by rewrite eea3_spec_twice.
Qed.

(** C14: [Encrypt] returns a byte slice: on a usable generator, in range,
    its output has the length of the message and every element is a
    byte, and the generator stays usable. *)
Theorem Encrypt_bytes e (m : list Z) blength :
  zuc_inv (zuc e) -> Forall (fits 8) m -> 0 <= blength -> blength + 31 < 2 ^ 32 ->
  nbytes blength <= Z.of_nat (length m) ->
  exists c e', Encrypt m blength e = Some (c, e')
    /\ length c = length m /\ Forall (fits 8) c /\ zuc_inv (zuc e').
Proof.
  intros Hz Hm H0 H1 Hn. destruct (encrypt_eq e m blength Hz H0 H1 Hn) as (ks & z' & _ & Hz' & He).
  exists (eea3_spec ks m blength), (mkEEA3 z'). split; [by apply He|].
  split; [apply length_eea3_spec|]. split; [by apply eea3_spec_bytes | exact Hz'].
Qed.

(** C15: Two [Encrypt] calls on one [EEA3] value use consecutive segments of
    one keystream: the second message is encrypted with the words that
    follow those of the first, as if both had been drawn at once. *)
Theorem Encrypt_sequence e (m1 m2 : list Z) b1 b2 :
  zuc_inv (zuc e) -> 0 <= b1 -> b1 + 31 < 2 ^ 32 -> 0 <= b2 -> b2 + 31 < 2 ^ 32 ->
  nbytes b1 <= Z.of_nat (length m1) -> nbytes b2 <= Z.of_nat (length m2) ->
  exists ks1 ks2 e1 e2,
    GenerateKeystream ((b1 + 31) / 32 + (b2 + 31) / 32) (zuc e) = Some (ks1 ++ ks2, zuc e2)
    /\ length ks1 = Z.to_nat ((b1 + 31) / 32)
    /\ Encrypt m1 b1 e = Some (eea3_spec ks1 m1 b1, e1)
    /\ Encrypt m2 b2 e1 = Some (eea3_spec ks2 m2 b2, e2).
Proof.
  intros Hz H0 H1 H2 H3 Hn1 Hn2.
  destruct (encrypt_eq e m1 b1 Hz H0 H1 Hn1) as (ks1 & z1 & G1 & Hz1 & E1).
  destruct (encrypt_eq (mkEEA3 z1) m2 b2 Hz1 H2 H3 Hn2) as (ks2 & z2 & G2 & _ & E2).
  exists ks1, ks2, (mkEEA3 z1), (mkEEA3 z2). split_and!.
  - apply (generate_seq _ _ _ ks1 z1 ks2 z2); [apply Z.div_pos; lia | apply Z.div_pos; lia | exact G1 | exact G2].
  - exact (draw_length _ _ _ _ G1).
  - by apply E1.
  - by apply E2.
Qed.

(** C29: The confidentiality IV: the count big-endian in bytes 0..3, the
    bearer shifted by 3 with the direction bit at position 2 in byte 4,
    zeros in bytes 5..7, and bytes 8..15 a copy of bytes 0..7. *)
Theorem eea3_iv_layout count bearer direction :
  let b4 := u8 (Z.lor (Z.shiftl bearer 3) (Z.shiftl (Z.land direction 1) 2)) in
  eea3_iv count bearer direction
  = PutUint32 count ++ [b4; 0; 0; 0] ++ PutUint32 count ++ [b4; 0; 0; 0].
Proof.
  intros b4.
  assert (E : u8 (Z.lor (u32 (Z.shiftl bearer 3))
                        (Z.land (u32 (Z.shiftl (Z.land direction 1) 2)) 0xfc)) = b4).
  { subst b4. bitwise. }
  unfold eea3_iv. cbn. rewrite E. reflexivity.
Qed.

(** C23: For [blength] in [2^32 - 31, 2^32 - 1], [blength + 31] wraps in
    [uint32], [keylength] is 0, no keystream is drawn and the output is
    all zero: the message is lost instead of encrypted. *)
Theorem Encrypt_overflow e (m : list Z) blength :
  2 ^ 32 - 31 <= blength < 2 ^ 32 -> 2 ^ 29 <= Z.of_nat (length m) ->
  Encrypt m blength e = Some (replicate (length m) 0, e).
Proof.
  intros Hb Hm. destruct e as [z]. unfold Encrypt, encrypt_ks. cbn [zuc]. cbv zeta.
  replace (u32 (blength + 31) / 32) with 0
    by (unfold u32; rewrite Z.mod_eq by lia; Z.div_mod_to_equations; nia).
  change (GenerateKeystream 0 z) with (Some ([] : list Z, z)).
  cbn [mbind option_bind]. rewrite code_length by lia.
  change (outer_loop (Z.to_nat 0) [] m (nbytes blength) 0 (replicate (length m) 0))
    with (Some (replicate (length m) 0)).
  cbn [mbind option_bind].
  assert (HN : 2 ^ 29 - 4 <= nbytes blength <= 2 ^ 29)
    by (unfold nbytes; Z.div_mod_to_equations; lia).
  assert (Hz : forall b : nat, (b < length m)%nat -> replicate (length m) 0 !! b = Some 0)
    by (intros; by apply lookup_replicate_2).
  assert (Hmask : (if 0 <? Z.land blength 7 then
      v ← load (replicate (length m) 0) (u32 (nbytes blength - 1));
      store (replicate (length m) 0) (u32 (nbytes blength - 1))
        (Z.land v (u8 (Z.shiftl 255 (8 - Z.land blength 7))))
    else Some (replicate (length m) 0)) = Some (replicate (length m) 0)).
  { destruct (0 <? Z.land blength 7); [|done].
    rewrite (u32_small (nbytes blength - 1)) by (unfold fits; lia).
    replace (nbytes blength - 1) with (Z.of_nat (Z.to_nat (nbytes blength - 1))) by lia.
    rewrite load_lookup, Hz by lia. cbn [mbind option_bind].
    rewrite store_lookup by (rewrite length_replicate; lia).
    rewrite Z.land_0_l, list_insert_id; [done|]. apply Hz; lia. }
  rewrite Hmask. cbn [mbind option_bind]. rewrite length_replicate.
  replace (nbytes blength) with (Z.of_nat (Z.to_nat (nbytes blength))) at 2 by lia.
  rewrite zero_loop_id; [done | rewrite length_replicate; lia |].
  intros b Hb'. apply Hz. lia.
Qed.

(** C18: [Encrypt] panics when the message has fewer than
    [ceil(blength / 8)] bytes: the loop reads past the end of [m]. *)
Theorem Encrypt_short e (m : list Z) blength :
  zuc_inv (zuc e) -> 0 <= blength -> blength + 31 < 2 ^ 32 ->
  Z.of_nat (length m) < nbytes blength ->
  Encrypt m blength e = None.
Proof.
  intros Hz H0 H1 Hm.
  destruct (draw_total ((blength + 31) / 32) (zuc e) Hz) as (ks & z' & Hg & Hl & _).
  unfold Encrypt. rewrite (u32_small (blength + 31)) by (unfold fits; lia).
  rewrite Hg. cbn [mbind option_bind]. by rewrite encrypt_ks_short.
Qed.

(** C16: The bits of the message past [blength] do not matter:
    [Encrypt] on the message truncated to [blength] bits gives the same
    output and the same next state as on the message itself, panics
    included. *)
Theorem Encrypt_truncate e (m : list Z) blength :
  0 <= blength -> blength + 31 < 2 ^ 32 ->
  Encrypt (truncate m blength) blength e = Encrypt m blength e.
Proof.
  intros H0 H1. unfold Encrypt. rewrite (u32_small (blength + 31)) by (unfold fits; lia).
  destruct (GenerateKeystream ((blength + 31) / 32) (zuc e)) as [[ks z]|] eqn:Hg;
    cbn [mbind option_bind]; [|done].
  apply draw_length in Hg.
  destruct (Z_le_gt_dec (nbytes blength) (Z.of_nat (length m))).
  - rewrite !encrypt_ks_spec by (rewrite ?length_truncate; lia || done).
    by rewrite eea3_spec_truncate.
  - rewrite !encrypt_ks_short by (rewrite ?length_truncate; lia || done). done.
Qed.

(** ** Test vectors of [src/eea3/eea3_test.go] and counterexamples *)

Definition ck1 : list Z :=
  [0x17; 0x3d; 0x14; 0xba; 0x50; 0x03; 0x73; 0x1d; 0x7a; 0x60; 0x04; 0x94; 0x70; 0xf0; 0x0a; 0x29].
Definition pt1 : list Z :=
  [0x6c; 0xf6; 0x53; 0x40; 0x73; 0x55; 0x52; 0xab; 0x0c; 0x97; 0x52; 0xfa; 0x6f; 0x90;
   0x25; 0xfe; 0x0b; 0xd6; 0x75; 0xd9; 0x00; 0x58; 0x75; 0xb2; 0x00; 0x00; 0x00; 0x00].
Definition ct1 : list Z :=
  [0xa6; 0xc8; 0x5f; 0xc6; 0x6a; 0xfb; 0x85; 0x33; 0xaa; 0xfc; 0x25; 0x18; 0xdf; 0xe7;
   0x84; 0x94; 0x0e; 0xe1; 0xe4; 0xb0; 0x30; 0x23; 0x8c; 0xc8; 0x00; 0x00; 0x00; 0x00].

(** The transform of test set 1, as [NewEEA3] builds it. *)
Definition eea3_set1 : option EEA3 := NewEEA3 ck1 0x66035492 0x0f KEY_UPLINK.

(** Test set 1: 193 bits of plaintext encrypt to the documented
    ciphertext. *)
Theorem eea3_test_set_1 :
  (e ← eea3_set1; '(c, _) ← Encrypt pt1 193 e; Some c) = Some ct1.
Proof. vm_compute. reflexivity. Qed.

(** Reusing one [EEA3] value does not decrypt: the [Decrypt] after an
    [Encrypt] on the same transform continues the keystream. *)
Theorem eea3_reuse_no_roundtrip :
  (e ← eea3_set1; '(c, e1) ← Encrypt pt1 193 e; '(p, _) ← Decrypt c 193 e1; Some p)
  <> Some pt1.
Proof. vm_compute. discriminate. Qed.

(** Bits past [blength] do not survive a round trip: one bit of [0xff]
    comes back as [0x80]. *)
Theorem eea3_padding_not_restored :
  (e ← eea3_set1; '(c, _) ← Encrypt [0xff] 1 e; '(p, _) ← Decrypt c 1 e; Some p)
  = Some [0x80].
Proof. vm_compute. reflexivity. Qed.

(** ** Witnesses *)

Definition eea3_e1 : EEA3 := match eea3_set1 with Some e => e | None => mkEEA3 zuc0 end.

Lemma Encrypt_spec_witness :
  exists ks z', GenerateKeystream ((193 + 31) / 32) (zuc eea3_e1) = Some (ks, z')
    /\ Encrypt pt1 193 eea3_e1 = Some (eea3_spec ks pt1 193, mkEEA3 z').
Proof.
  apply Encrypt_spec;
    [decide_concrete | lia | lia | decide_concrete].
Defined.

Lemma Decrypt_Encrypt_witness :
  exists c e', Encrypt pt1 193 eea3_e1 = Some (c, e')
    /\ Decrypt c 193 eea3_e1 = Some (truncate pt1 193, e').
Proof.
  apply Decrypt_Encrypt;
    [decide_concrete | lia | lia | decide_concrete].
Defined.

Lemma eea3_spec_masking_witness :
  length (eea3_spec [0x27bede74] [0xff; 0xff; 0xff] 10) = length [0xff; 0xff; 0xff]
  /\ (forall b : nat, nbytes 10 <= Z.of_nat b -> (b < length [0xff; 0xff; 0xff])%nat ->
        eea3_spec [0x27bede74] [0xff; 0xff; 0xff] 10 !! b = Some 0)
  /\ (0 < 10 mod 8 -> forall y,
        eea3_spec [0x27bede74] [0xff; 0xff; 0xff] 10 !! Z.to_nat (nbytes 10 - 1) = Some y ->
        Z.land y (Z.ones (8 - 10 mod 8)) = 0).
Proof. apply eea3_spec_masking. lia. Defined.

Lemma Encrypt_overflow_witness :
  Encrypt (replicate (Z.to_nat (2 ^ 29)) 0) (2 ^ 32 - 1) eea3_e1
  = Some (replicate (length (replicate (Z.to_nat (2 ^ 29)) 0 : list Z)) 0, eea3_e1).
Proof. apply Encrypt_overflow; [lia | rewrite length_replicate; lia]. Defined.

Lemma Encrypt_bytes_witness :
  exists c e', Encrypt pt1 193 eea3_e1 = Some (c, e')
    /\ length c = length pt1 /\ Forall (fits 8) c /\ zuc_inv (zuc e').
Proof.
  apply Encrypt_bytes; [decide_concrete | decide_concrete | lia | lia | decide_concrete].
Defined.

Lemma Encrypt_short_witness :
  Encrypt (take 24 pt1) 193 eea3_e1 = None.
Proof. apply Encrypt_short; [decide_concrete | lia | lia | decide_concrete]. Defined.

Lemma Encrypt_truncate_witness :
  Encrypt (truncate [0xff; 0xff] 9) 9 eea3_e1 = Encrypt [0xff; 0xff] 9 eea3_e1.
Proof. apply Encrypt_truncate; lia. Defined.

Lemma Encrypt_sequence_witness :
  exists ks1 ks2 e1 e2,
    GenerateKeystream ((193 + 31) / 32 + (8 + 31) / 32) (zuc eea3_e1) = Some (ks1 ++ ks2, zuc e2)
    /\ length ks1 = Z.to_nat ((193 + 31) / 32)
    /\ Encrypt pt1 193 eea3_e1 = Some (eea3_spec ks1 pt1 193, e1)
    /\ Encrypt [0xff] 8 e1 = Some (eea3_spec ks2 [0xff] 8, e2).
Proof.
  apply Encrypt_sequence;
    [decide_concrete | lia | lia | lia | lia | decide_concrete | decide_concrete].
Defined.
