(* ===== verification/Eia3.v ===== *)
(** * Eia3: the integrity algorithm 128-EIA3 of [src/eia3/eia3.go]

    [EIA3] holds the pointer to the [ZUC] generator that [NewEIA3] creates
    from the key and its own IV layout.  [Hash] draws
    [ceil((blen + 64) / 32)] words, XORs into a 32-bit accumulator the
    keystream window [getZi ks i] for every set bit [i] of the message,
    then the window at [blen], then the last drawn word, and returns the
    result as 4 bytes.  [Verify] recomputes the tag and compares.

    The model keeps the [uint32] arithmetic of the code ([blen + 64] and
    [n + 31] wrap), the panicking slice reads of [getZi] and of the
    message, and the state of the generator: [Hash] and [Verify] are in
    the monad [Go EIA3].

    The theorems: [getZi] is the 32-bit window of the keystream bit
    stream at any offset; when [blen + 64] does not wrap, [Hash] on a
    message of at least [blen] bits never panics and reads only drawn
    words, and on a shorter message it panics; the tag depends only on
    the first [blen] message bits and is affine in them (flipping bit
    [i] XORs the tag with the window at [i]); [Verify] accepts exactly
    the tag [Hash] computes from the same state, so reusing one
    transform makes [Verify] reject its own tag; for [blen] within 95 of
    2^32 [Hash] always panics; and the test vectors hold. *)

From S2P Require Import Prelude Words Tables Lfsr Zuc Keystream.

(** ** State and construction *)

Record EIA3 := mkEIA3 { zuc : ZUC }.

(** [getZi(ks, i)]: the 32 keystream bits from bit [i] on, most
    significant first; [ks[i/32+1]] panics past the drawn words. *)
Definition getZi (ks : list Z) (i : Z) : option Z :=
  let ti := i mod 32 in
  if ti =? 0 then load ks (i / 32)
  else
    a ← load ks (i / 32);
    b ← load ks (i / 32 + 1);
    Some (Z.lor (u32 (Z.shiftl a ti)) (Z.shiftr b (32 - ti))).

(** The IV of [NewEIA3]. *)
Definition eia3_iv (count bearer direction : Z) : list Z :=
  let d := u8 (u32 (Z.shiftl (Z.land direction 1) 7)) in
  let iv := replicate 16 0 in
  let iv := list_inserts 0 (PutUint32 count) iv in
  let iv := <[4%nat := u8 (Z.land (u32 (Z.shiftl bearer 3)) 0xf8)]> iv in
  let iv := list_inserts 8 (PutUint32 count) iv in
  let iv := <[8%nat := Z.lxor (nth 8 iv 0) d]> iv in
  let iv := list_inserts 12 (take 4 (drop 4 iv)) iv in
  <[14%nat := Z.lxor (nth 14 iv 0) d]> iv.

(** [NewEIA3(ik, count, bearer, direction)]. *)
Definition NewEIA3 (ik : list Z) (count bearer direction : Z) : option EIA3 :=
  z ← NewZUC ik (eia3_iv count bearer direction); Some (mkEIA3 z).

(** ** [Hash] *)

(** The loop [for i := 0; i < int(blen); i += 1]: bit [i] of the message,
    most significant first in each byte, selects the window at [i]. *)
Fixpoint hash_loop (n : nat) (ks m : list Z) (i t : Z) : option Z :=
  match n with
  | O => Some t
  | S n =>
      b ← load m (i / 8);
      t ← (if 0 <? Z.land b (u8 (Z.shiftl 1 (7 - i mod 8)))
           then zi ← getZi ks i; Some (Z.lxor t zi)
           else Some t);
      hash_loop n ks m (i + 1) t
  end.

(** [Hash] after the keystream is drawn, up to the tag word
    [t^ks[keylength-1]]. *)
Definition hash_word (ks m : list Z) (blen : Z) : option Z :=
  let n := u32 (blen + 64) in
  let keylength := u32 (n + 31) / 32 in
  t ← hash_loop (Z.to_nat blen) ks m 0 0;
  zi ← getZi ks blen;
  let t := Z.lxor t zi in
  last ← load ks (u32 (keylength - 1));
  Some (Z.lxor t last).

(** [binary.BigEndian.PutUint32(mac, t^ks[keylength-1])]. *)
Definition hash_ks (ks m : list Z) (blen : Z) : option (list Z) :=
  w ← hash_word ks m blen; Some (PutUint32 w).

(** [(e *EIA3) Hash(m, blen)]. *)
Definition Hash (m : list Z) (blen : Z) : Go EIA3 (list Z) := fun e =>
  let n := u32 (blen + 64) in
  let keylength := u32 (n + 31) / 32 in
  '(ks, z) ← GenerateKeystream keylength (zuc e);
  mac ← hash_ks ks m blen;
  Some (mac, mkEIA3 z).

(** [(e *EIA3) Verify(m, blen, mac)]: [bytes.Compare(chksum, mac) == 0]
    holds exactly for equal byte slices. *)
Definition Verify (m : list Z) (blen : Z) (mac : list Z) : Go EIA3 bool :=
  go_bind (Hash m blen) (fun chksum => go_ret (bool_decide (chksum = mac))).

(** ** Specification *)

(** Bit [p] of the keystream bit stream, most significant bit of word 0
    first. *)
Definition ks_bit (ks : list Z) (p : Z) : bool :=
  Z.testbit (nth (Z.to_nat (p / 32)) ks 0) (31 - p mod 32).

(** Bit [i] of the message, most significant bit of byte 0 first. *)
Definition msg_bit (m : list Z) (i : Z) : bool :=
  Z.testbit (nth (Z.to_nat (i / 8)) m 0) (7 - i mod 8).

(** The 128-EIA3 tag of the standard, bit [31 - b]: the XOR of the
    windows z_i for the set message bits i < blen, of z_blen and of the
    last of the [L = ceil((blen + 64) / 32)] drawn words, all at offset
    [b]. *)
Definition tag_bit (ks m : list Z) (blen b : Z) : bool :=
  xorb (foldr (fun i acc => xorb (msg_bit m i && ks_bit ks (i + b)) acc) false (seqZ 0 blen))
       (xorb (ks_bit ks (blen + b)) (ks_bit ks (32 * ((blen + 95) / 32 - 1) + b))).

(** ** Helper lemmas *)

Lemma div_mod_32 q s : 0 <= s < 32 -> (32 * q + s) / 32 = q /\ (32 * q + s) mod 32 = s.
Proof.
  intros Hs. rewrite Z.mul_comm. split.
  - rewrite Z.div_add_l by lia. rewrite Z.div_small by lia. lia.
  - rewrite Z.add_comm, Z.mod_add by lia. apply Z.mod_small; lia.
Qed.

Lemma ks_bit_at ks q s :
  0 <= s < 32 -> ks_bit ks (32 * q + s) = Z.testbit (nth (Z.to_nat q) ks 0) (31 - s).
Proof. intros Hs. unfold ks_bit. destruct (div_mod_32 q s Hs) as [-> ->]. reflexivity. Qed.

Lemma load_word w (ks : list Z) q :
  Forall (fits w) ks -> 0 <= q < Z.of_nat (length ks) ->
  load ks q = Some (nth (Z.to_nat q) ks 0) /\ fits w (nth (Z.to_nat q) ks 0).
Proof.
  intros Hf Hq. rewrite load_nth by done. split; [done|].
  rewrite Forall_forall in Hf. apply Hf, list_elem_of_In, nth_In. lia.
Qed.

(** ** Theorems *)

(** [getZi ks i] is the 32-bit window of the keystream bit stream at bit
    offset [i]: whenever the window ends inside the drawn words, it does
    not panic, and its bit [31 - j] is stream bit [i + j]. *)
Lemma getZi_bits ks i :
  Forall (fits 32) ks -> 0 <= i -> (i + 31) / 32 < Z.of_nat (length ks) ->
  exists z, getZi ks i = Some z /\ fits 32 z
    /\ forall j, 0 <= j < 32 -> Z.testbit z (31 - j) = ks_bit ks (i + j).
Proof.
  intros Hf Hi Hr. unfold getZi.
  pose proof (Z.div_mod i 32 ltac:(lia)) as Hdm.
  pose proof (Z.mod_pos_bound i 32 ltac:(lia)) as Hb.
  assert (Hq : 0 <= i / 32) by (apply Z.div_pos; lia).
  set (q := i / 32) in *. set (r := i mod 32) in *.
  destruct (Z.eqb_spec r 0) as [Hr0|Hr0].
  - assert (Hend : (i + 31) / 32 = q)
      by (replace (i + 31) with (32 * q + 31) by lia; apply div_mod_32; lia).
    destruct (load_word 32 ks q Hf ltac:(lia)) as [Ha Fa]. rewrite Ha.
    eexists; split; [reflexivity|]. split; [exact Fa|]. intros j Hj.
    replace (i + j) with (32 * q + j) by lia. rewrite ks_bit_at by lia. reflexivity.
  - assert (Hend : (i + 31) / 32 = q + 1)
      by (replace (i + 31) with (32 * (q + 1) + (r - 1)) by lia; apply div_mod_32; lia).
    destruct (load_word 32 ks q Hf ltac:(lia)) as [Ha Fa].
    destruct (load_word 32 ks (q + 1) Hf ltac:(lia)) as [Hb' Fb]. rewrite Ha, Hb'.
    cbn [mbind option_bind]. eexists; split; [reflexivity|].
    split; [apply fits_lor; auto with zuc lia|]. intros j Hj.
    destruct (Z.lt_ge_cases (r + j) 32).
    + replace (i + j) with (32 * q + (r + j)) by lia. rewrite ks_bit_at by lia.
      autorewrite with zbits. split_bit_cases; clear_neg_bits; clear_high_bits;
        normalize_index; try lia; btauto.
    + replace (i + j) with (32 * (q + 1) + (r + j - 32)) by lia. rewrite ks_bit_at by lia.
      autorewrite with zbits. split_bit_cases; clear_neg_bits; clear_high_bits;
        normalize_index; try lia; btauto.
Qed.

(** ** The message bits *)

(** [m[i/8] & uint8(1<<(7-(i%8))) > 0] tests bit [7 - i mod 8] of the
    byte. *)
Lemma bit_test b i :
  0 <= b -> (0 <? Z.land b (u8 (Z.shiftl 1 (7 - i mod 8)))) = Z.testbit b (7 - i mod 8).
Proof.
  intros Hb. pose proof (Z.mod_pos_bound i 8 ltac:(lia)) as Hi.
  rewrite Z.shiftl_1_l, u8_small.
  2: { unfold fits. split; [lia|]. apply Z.pow_lt_mono_r; lia. }
  destruct (Z.testbit b (7 - i mod 8)) eqn:E.
  - apply Z.ltb_lt. assert (Z.land b (2 ^ (7 - i mod 8)) <> 0).
    { intros H0. assert (Z.testbit (Z.land b (2 ^ (7 - i mod 8))) (7 - i mod 8) = false)
        by (rewrite H0; apply Z.bits_0).
      rewrite Z.land_spec, E, Z.pow2_bits_true in H by lia. discriminate. }
    pose proof (Z.land_nonneg b (2 ^ (7 - i mod 8))). lia.
  - apply Z.ltb_ge. apply Z.eq_le_incl. apply Z.bits_inj'. intros k Hk.
    rewrite Z.land_spec, Z.pow2_bits_eqb, Z.bits_0 by lia.
    destruct (Z.eqb_spec (7 - i mod 8) k) as [<-|]; [by rewrite E | apply andb_false_r].
Qed.

(** Flipping bit [p] of the message, most significant first in a byte. *)
Definition flip_bit (m : list Z) (p : Z) : list Z :=
  <[Z.to_nat (p / 8) := Z.lxor (nth (Z.to_nat (p / 8)) m 0) (2 ^ (7 - p mod 8))]> m.

(** The byte of the flipped message that bit [i] is read from. *)
Lemma load_flip (m : list Z) p i :
  0 <= p -> 0 <= i -> p / 8 < Z.of_nat (length m) ->
  load (flip_bit m p) (i / 8)
  = (fun b => if decide (i / 8 = p / 8) then Z.lxor b (2 ^ (7 - p mod 8)) else b)
      <$> load m (i / 8).
Proof.
  intros Hp Hi Hl. assert (0 <= i / 8) by (apply Z.div_pos; lia).
  assert (0 <= p / 8) by (apply Z.div_pos; lia).
  unfold load, flip_bit. rewrite !decide_True by lia.
  destruct (decide (i / 8 = p / 8)) as [E|E].
  - rewrite E, list_lookup_insert_eq by lia.
    destruct (lookup_lt_is_Some_2 m (Z.to_nat (p / 8))) as [b Hb]; [lia|].
    rewrite Hb. simpl. by rewrite (nth_lookup_Some _ _ _ _ Hb).
  - rewrite list_lookup_insert_ne by lia. by destruct (m !! _).
Qed.

(** The flipped byte answers the bit test of bit [i] with the old answer
    XOR [i = p], when [i] and [p] share the byte. *)
Lemma bit_test_flip b i p :
  0 <= b -> 0 <= i -> 0 <= p -> i / 8 = p / 8 ->
  Z.testbit (Z.lxor b (2 ^ (7 - p mod 8))) (7 - i mod 8)
  = xorb (Z.testbit b (7 - i mod 8)) (i =? p).
Proof.
  intros Hb Hi Hp E. pose proof (Z.mod_pos_bound i 8 ltac:(lia)).
  pose proof (Z.mod_pos_bound p 8 ltac:(lia)).
  rewrite Z.lxor_spec, Z.pow2_bits_eqb by lia. f_equal.
  pose proof (Z.div_mod i 8 ltac:(lia)). pose proof (Z.div_mod p 8 ltac:(lia)).
  destruct (Z.eqb_spec (7 - p mod 8) (7 - i mod 8)), (Z.eqb_spec i p); lia.
Qed.

Lemma load_nonneg (m : list Z) i b : Forall (fits 8) m -> load m i = Some b -> 0 <= b.
Proof.
  unfold load. intros Hf Hl. destruct (decide (0 <= i)); [|discriminate].
  rewrite Forall_lookup in Hf. apply Hf in Hl. unfold fits in Hl. lia.
Qed.

(** The code's bit test on the flipped message. *)
Lemma flip_test (m : list Z) p i b :
  Forall (fits 8) m -> 0 <= p -> 0 <= i -> p / 8 < Z.of_nat (length m) ->
  load m (i / 8) = Some b ->
  exists b', load (flip_bit m p) (i / 8) = Some b'
    /\ (0 <? Z.land b' (u8 (Z.shiftl 1 (7 - i mod 8))))
       = xorb (0 <? Z.land b (u8 (Z.shiftl 1 (7 - i mod 8)))) (i =? p).
Proof.
  intros Hf Hp Hi Hl Hb. pose proof (load_nonneg m _ b Hf Hb) as Hb0.
  rewrite load_flip, Hb by lia. simpl. eexists; split; [reflexivity|].
  rewrite !bit_test by (try case_decide; try apply Z.lxor_nonneg; lia).
  case_decide as E.
  - by apply bit_test_flip.
  - destruct (Z.eqb_spec i p); [subst; congruence | by rewrite xorb_false_r].
Qed.

(** The accumulator enters the loop linearly. *)
Lemma hash_loop_xor n ks m i t c :
  hash_loop n ks m i (Z.lxor t c) = (fun t' => Z.lxor t' c) <$> hash_loop n ks m i t.
Proof.
  revert i t. induction n as [|n IH]; intros i t; [done|]. cbn [hash_loop].
  destruct (load m (i / 8)) as [b|]; [|done]. cbn [mbind option_bind].
  destruct (0 <? _).
  - destruct (getZi ks i) as [zi|]; [|done]. cbn [mbind option_bind].
    rewrite <- IH. f_equal. rewrite !Z.lxor_assoc, (Z.lxor_comm c zi). reflexivity.
  - cbn [mbind option_bind]. apply IH.
Qed.

(** Bits before [i] do not matter to the loop from [i] on. *)
Lemma hash_loop_flip_before n ks (m : list Z) i t p :
  Forall (fits 8) m -> 0 <= p < i -> p / 8 < Z.of_nat (length m) ->
  hash_loop n ks (flip_bit m p) i t = hash_loop n ks m i t.
Proof.
  intros Hf. revert i t. induction n as [|n IH]; intros i t Hp Hl; [done|]. cbn [hash_loop].
  destruct (load m (i / 8)) as [b|] eqn:Eb.
  - destruct (flip_test m p i b Hf ltac:(lia) ltac:(lia) Hl Eb) as (b' & -> & Et).
    cbn [mbind option_bind]. rewrite Et. destruct (Z.eqb_spec i p); [lia|].
    rewrite xorb_false_r.
    destruct (0 <? Z.land b (u8 (Z.shiftl 1 (7 - i mod 8))));
      [destruct (getZi ks i)|]; cbn [mbind option_bind]; try done; apply IH; lia.
  - rewrite load_flip, Eb by lia. reflexivity.
Qed.

(** Flipping bit [p] inside the loop's range XORs the accumulator with
    the window at [p]. *)
Lemma hash_loop_flip n ks (m : list Z) i t t' p zp :
  Forall (fits 8) m -> 0 <= i <= p -> p < i + Z.of_nat n -> p / 8 < Z.of_nat (length m) ->
  getZi ks p = Some zp -> hash_loop n ks m i t = Some t' ->
  hash_loop n ks (flip_bit m p) i t = Some (Z.lxor t' zp).
Proof.
  intros Hf. revert i t. induction n as [|n IH]; intros i t Hi Hn Hl Hz Hloop; [lia|].
  cbn [hash_loop] in *.
  destruct (load m (i / 8)) as [b|] eqn:Eb; [|discriminate].
  destruct (flip_test m p i b Hf ltac:(lia) ltac:(lia) Hl Eb) as (b' & -> & Et).
  cbn [mbind option_bind] in *. rewrite Et.
  destruct (Z.eqb_spec i p) as [<-|Hne].
  - destruct (0 <? Z.land b (u8 (Z.shiftl 1 (7 - i mod 8))));
      cbn [xorb negb mbind option_bind] in *; rewrite Hz in *; cbn [mbind option_bind] in *;
      rewrite hash_loop_flip_before by (auto; lia).
    + replace t with (Z.lxor (Z.lxor t zp) zp) at 1
        by (rewrite Z.lxor_assoc, Z.lxor_nilpotent; apply Z.lxor_0_r).
      rewrite hash_loop_xor, Hloop. reflexivity.
    + rewrite hash_loop_xor, Hloop. reflexivity.
  - rewrite xorb_false_r.
    destruct (0 <? Z.land b (u8 (Z.shiftl 1 (7 - i mod 8))));
      [destruct (getZi ks i) as [zi|]; [|discriminate]|];
      cbn [mbind option_bind] in *; apply IH; auto; lia.
Qed.

(** ** Totality of [Hash] *)

(** A window that ends inside the drawn words does not panic. *)
Lemma getZi_some (ks : list Z) i :
  0 <= i -> (i + 31) / 32 < Z.of_nat (length ks) -> is_Some (getZi ks i).
Proof.
  intros Hi Hr. pose proof (Z.div_mod i 32 ltac:(lia)) as Hdm.
  pose proof (Z.mod_pos_bound i 32 ltac:(lia)) as Hb.
  assert (0 <= i / 32) by (apply Z.div_pos; lia).
  assert (i / 32 <= (i + 31) / 32) by (apply Z.div_le_mono; lia).
  unfold getZi. destruct (i mod 32 =? 0) eqn:E0; [apply load_Some; lia|].
  apply Z.eqb_neq in E0.
  assert (Hq : i / 32 + 1 = (i + 31) / 32).
  { replace (i + 31) with (32 * (i / 32 + 1) + (i mod 32 - 1)) by lia.
    symmetry. apply div_mod_32. lia. }
  destruct (load_Some ks (i / 32)) as [a ->]; [lia|].
  destruct (load_Some ks (i / 32 + 1)) as [b ->]; [lia|]. done.
Qed.

(** The loop does not panic while the message has byte [i / 8] and the
    keystream has the window at [i]. *)
Lemma hash_loop_total n ks (m : list Z) i t :
  0 <= i -> (i + Z.of_nat n + 30) / 32 < Z.of_nat (length ks) ->
  i + Z.of_nat n <= 8 * Z.of_nat (length m) -> is_Some (hash_loop n ks m i t).
Proof.
  revert i t. induction n as [|n IH]; intros i t Hi Hk Hm; [done|]. cbn [hash_loop].
  assert (0 <= i / 8 < Z.of_nat (length m)).
  { split; [apply Z.div_pos; lia|]. apply Z.div_lt_upper_bound; lia. }
  destruct (load_Some m (i / 8)) as [b ->]; [lia|].
  cbn [mbind option_bind].
  assert ((i + 31) / 32 <= (i + Z.of_nat (S n) + 30) / 32) by (apply Z.div_le_mono; lia).
  replace (i + Z.of_nat (S n) + 30) with (i + 1 + Z.of_nat n + 30) in * by lia.
  destruct (0 <? Z.land b (u8 (Z.shiftl 1 (7 - i mod 8)))).
  - destruct (getZi_some ks i) as [zi ->]; [lia..|]. cbn [mbind option_bind]. apply IH; lia.
  - cbn [mbind option_bind]. apply IH; lia.
Qed.

(** Without wrap-around the code draws [(blen + 95) / 32] words. *)
Lemma hash_keylength blen :
  0 <= blen -> blen + 95 < 2 ^ 32 -> u32 (u32 (blen + 64) + 31) / 32 = (blen + 95) / 32.
Proof.
  intros H0 H1. rewrite (u32_small (blen + 64)) by (unfold fits; lia).
  rewrite u32_small by (unfold fits; lia). f_equal. lia.
Qed.

(** The bounds on the word count that [Hash] relies on. *)
Lemma hash_bounds blen :
  0 <= blen -> blen + 95 < 2 ^ 32 ->
  2 <= (blen + 95) / 32 /\ (blen + 31) / 32 < (blen + 95) / 32
  /\ (blen + 30) / 32 <= (blen + 31) / 32 /\ (blen + 95) / 32 <= blen + 95.
Proof.
  intros H0 H1. split; [apply Z.div_le_lower_bound; lia|]. split.
  { apply Z.lt_le_trans with ((blen + 31) / 32 + 2); [lia|].
    rewrite <- Z.div_add by lia. apply Z.div_le_mono; lia. }
  split; [apply Z.div_le_mono; lia | apply Z.div_le_upper_bound; lia].
Qed.

Lemma hash_word_total ks (m : list Z) blen :
  0 <= blen -> blen + 95 < 2 ^ 32 -> length ks = Z.to_nat ((blen + 95) / 32) ->
  blen <= 8 * Z.of_nat (length m) -> is_Some (hash_word ks m blen).
Proof.
  intros H0 H1 Hl Hm. unfold hash_word. rewrite hash_keylength by lia.
  destruct (hash_bounds blen H0 H1) as (? & ? & ? & ?).
  destruct (hash_loop_total (Z.to_nat blen) ks m 0 0) as [t ->];
    [lia| rewrite Z2Nat.id by lia; replace (0 + blen + 30) with (blen + 30) by lia; lia | lia|].
  cbn [mbind option_bind].
  destruct (getZi_some ks blen) as [zi ->]; [lia..|]. cbn [mbind option_bind].
  rewrite u32_small by (unfold fits; lia).
  destruct (load_Some ks ((blen + 95) / 32 - 1)) as [w ->]; [lia|]. done.
Qed.

(** The loop XORs into the accumulator, bit by bit, the windows of the
    set message bits from [i] on. *)
Lemma hash_loop_bits n ks (m : list Z) i t :
  Forall (fits 32) ks -> Forall (fits 8) m -> 0 <= i -> fits 32 t ->
  (i + Z.of_nat n + 30) / 32 < Z.of_nat (length ks) ->
  i + Z.of_nat n <= 8 * Z.of_nat (length m) ->
  exists t', hash_loop n ks m i t = Some t' /\ fits 32 t'
    /\ forall b, 0 <= b < 32 -> Z.testbit t' (31 - b) =
         xorb (Z.testbit t (31 - b))
           (foldr (fun j acc => xorb (msg_bit m j && ks_bit ks (j + b)) acc) false
              (seqZ i (Z.of_nat n))).
Proof.
  intros Fk Fm. revert i t. induction n as [|n IH]; intros i t Hi Ht Hk Hm.
  { exists t. split; [done|]. split; [done|]. intros b _. cbn. by rewrite xorb_false_r. }
  cbn [hash_loop]. rewrite seqZ_cons by lia.
  replace (Z.pred (Z.of_nat (S n))) with (Z.of_nat n) by lia.
  assert (0 <= i / 8 < Z.of_nat (length m)).
  { split; [apply Z.div_pos; lia|]. apply Z.div_lt_upper_bound; lia. }
  assert ((i + 31) / 32 <= (i + Z.of_nat (S n) + 30) / 32) by (apply Z.div_le_mono; lia).
  replace (i + Z.of_nat (S n) + 30) with (Z.succ i + Z.of_nat n + 30) in * by lia.
  destruct (load_word 8 m (i / 8) Fm) as [Hb Fb]; [lia|]. rewrite Hb. cbn [mbind option_bind].
  rewrite bit_test by (unfold fits in Fb; lia). fold (msg_bit m i).
  destruct (msg_bit m i) eqn:Emb.
  - destruct (getZi_bits ks i Fk ltac:(lia) ltac:(lia)) as (z & Hz & Fz & Bz).
    rewrite Hz. cbn [mbind option_bind].
    destruct (IH (Z.succ i) (Z.lxor t z)) as (t' & Ht' & Ft' & Bt');
      [lia | apply fits_lxor; auto; lia | lia | lia |].
    exists t'. split; [done|]. split; [done|]. intros b Hb'.
    rewrite Bt', Z.lxor_spec, Bz by lia. cbn [foldr]. rewrite Emb. btauto.
  - cbn [mbind option_bind].
    destruct (IH (Z.succ i) t) as (t' & Ht' & Ft' & Bt'); [lia | done | lia | lia |].
    exists t'. split; [done|]. split; [done|]. intros b Hb'.
    rewrite Bt' by lia. cbn [foldr]. rewrite Emb. reflexivity.
Qed.


(** The loop over [a + b] bits is the loop over [a] bits, then the loop
    over [b] bits from bit [i + a]. *)
Lemma hash_loop_add a b ks (m : list Z) i t :
  hash_loop (a + b) ks m i t
  = (t' ← hash_loop a ks m i t; hash_loop b ks m (i + Z.of_nat a) t').
Proof.
  revert i t. induction a as [|a IH]; intros i t; cbn [hash_loop Nat.add].
  - simpl. by rewrite Z.add_0_r.
  - destruct (load m (i / 8)); cbn [mbind option_bind]; [|done].
    match goal with |- context [mbind _ ?c] => destruct c end; cbn [mbind option_bind]; [|done].
    rewrite IH. by replace (i + 1 + Z.of_nat a) with (i + Z.of_nat (S a)) by lia.
Qed.

(** The loop reads of the message only its bits [i .. i + n - 1]. *)
Lemma hash_loop_ext n ks (m1 m2 : list Z) i t :
  Forall (fits 8) m1 -> Forall (fits 8) m2 -> 0 <= i ->
  i + Z.of_nat n <= 8 * Z.of_nat (length m1) -> i + Z.of_nat n <= 8 * Z.of_nat (length m2) ->
  (forall j, i <= j < i + Z.of_nat n -> msg_bit m1 j = msg_bit m2 j) ->
  hash_loop n ks m1 i t = hash_loop n ks m2 i t.
Proof.
  intros F1 F2. revert i t. induction n as [|n IH]; intros i t Hi H1 H2 Hag; [done|].
  cbn [hash_loop].
  assert (0 <= i / 8 < Z.of_nat (length m1) /\ 0 <= i / 8 < Z.of_nat (length m2)) as [? ?].
  { split; (split; [apply Z.div_pos; lia | apply Z.div_lt_upper_bound; lia]). }
  destruct (load_word 8 m1 (i / 8) F1) as [E1 B1]; [lia|].
  destruct (load_word 8 m2 (i / 8) F2) as [E2 B2]; [lia|].
  rewrite E1, E2. cbn [mbind option_bind].
  rewrite !bit_test by (unfold fits in *; lia). fold (msg_bit m1 i) (msg_bit m2 i).
  rewrite (Hag i) by lia.
  destruct (msg_bit m2 i); [destruct (getZi ks i)|]; cbn [mbind option_bind]; try done;
    apply IH; intros; try apply Hag; lia.
Qed.

(** ** Theorems on [Hash] and [Verify] *)

(** C9: On a usable generator and a message of at least [blen] bits, [Hash]
    does not panic when [blen + 95] stays below 2^32: it returns a 4-byte
    tag and leaves a usable generator. *)
Theorem Hash_total (m : list Z) blen e :
  zuc_inv (zuc e) -> 0 <= blen -> blen + 95 < 2 ^ 32 -> blen <= 8 * Z.of_nat (length m) ->
  exists mac e', Hash m blen e = Some (mac, e')
    /\ length mac = 4%nat /\ Forall (fits 8) mac /\ zuc_inv (zuc e').
Proof.
  intros Hz H0 H1 Hm. destruct e as [z]. unfold Hash. cbn [zuc] in *.
  rewrite hash_keylength by lia.
  destruct (draw_total ((blen + 95) / 32) z Hz) as (ks & z' & -> & L & _ & Hz').
  cbn [mbind option_bind]. unfold hash_ks.
  destruct (hash_word_total ks m blen) as [w ->]; [lia..|].
  eexists _, _. split; [reflexivity|].
  split; [apply length_PutUint32|]. split; [apply fits_PutUint32 | exact Hz'].
Qed.

(** C24: In the range where [blen + 64] or [n + 31] wraps around 2^32, the
    code draws at most two words and reads the window at [blen], far
    past them: [Hash] panics whatever the state and the message. *)
Theorem Hash_overflow (m : list Z) blen e :
  2 ^ 32 - 95 <= blen < 2 ^ 32 -> Hash m blen e = None.
Proof.
  intros Hb. unfold Hash. cbv zeta.
  assert (Hk : 0 <= u32 (u32 (blen + 64) + 31) < 95).
  { destruct (Z.lt_ge_cases (blen + 64) (2 ^ 32)).
    - rewrite (u32_small (blen + 64)) by (unfold fits; lia). rewrite u32_wrap; lia.
    - rewrite (u32_wrap (blen + 64)) by lia. rewrite u32_small by (unfold fits; lia). lia. }
  assert (Hk2 : u32 (u32 (blen + 64) + 31) / 32 < 3)
    by (apply Z.div_lt_upper_bound; lia).
  destruct (GenerateKeystream _ (zuc e)) as [[ks z']|] eqn:E; [|done].
  apply draw_length in E. cbn [mbind option_bind].
  unfold hash_ks, hash_word.
  destruct (hash_loop _ ks m 0 0); [|done]. cbn [mbind option_bind].
  assert (2 ^ 27 - 3 <= blen / 32) by (apply Z.div_le_lower_bound; lia).
  assert (0 <= u32 (u32 (blen + 64) + 31) / 32) by (apply Z.div_pos; lia).
  unfold getZi. rewrite (load_None ks (blen / 32)) by (rewrite E, Z2Nat.id; lia). by destruct (blen mod 32 =? 0).
Qed.

(** C10: The tag is affine in the message bits: flipping bit [p < blen] of
    the message XORs the tag word with the keystream window at [p], and
    leaves the generator in the same state. *)
Theorem Hash_flip (m : list Z) blen e mac e' p :
  Forall (fits 8) m -> 0 <= p < blen -> blen + 95 < 2 ^ 32 -> p / 8 < Z.of_nat (length m) ->
  Hash m blen e = Some (mac, e') ->
  exists w ks zp, mac = PutUint32 w
    /\ GenerateKeystream ((blen + 95) / 32) (zuc e) = Some (ks, zuc e')
    /\ getZi ks p = Some zp
    /\ Hash (flip_bit m p) blen e = Some (PutUint32 (Z.lxor w zp), e').
Proof.
  intros Hf Hp Hb Hl H. destruct e as [z]. unfold Hash in *. cbn [zuc] in *.
  rewrite hash_keylength in * by lia.
  destruct (GenerateKeystream _ z) as [[ks z']|] eqn:E; [|discriminate].
  pose proof (draw_length _ _ _ _ E) as L.
  cbn [mbind option_bind] in *. unfold hash_ks in *.
  destruct (hash_word ks m blen) as [w|] eqn:Ew; [|discriminate].
  cbn [mbind option_bind] in H. injection H as <- <-.
  assert ((p + 31) / 32 < (blen + 95) / 32).
  { apply Z.lt_le_trans with ((p + 31) / 32 + 2); [lia|].
    rewrite <- Z.div_add by lia. apply Z.div_le_mono; lia. }
  destruct (getZi_some ks p) as [zp Hzp]; [lia..|].
  exists w, ks, zp. split; [done|]. split; [done|]. split; [done|].
  unfold hash_word in *.
  destruct (hash_loop _ ks m 0 0) as [t|] eqn:Et; [|discriminate].
  rewrite (hash_loop_flip _ _ _ _ _ t p zp) by (auto; lia).
  cbn [mbind option_bind] in *.
  destruct (getZi ks blen) as [zi|]; [|discriminate]. cbn [mbind option_bind] in *.
  destruct (load ks _) as [last|]; [|discriminate]. injection Ew as <-.
  cbn [mbind option_bind]. do 3 f_equal. apply Z.bits_inj'. intros j _. rewrite !Z.lxor_spec. btauto.
Qed.

(** C8: [Hash] computes the tag of the 128-EIA3 standard: on a usable
    generator and a message of at least [blen] bits with [blen + 95 <
    2^32], it draws [ceil((blen + 64) / 32)] words [ks] and returns the
    big-endian bytes of the 32-bit word [T] whose bit [31 - b] is
    [tag_bit ks m blen b]: the XOR of the windows at the set message
    bits, at [blen] and of the last drawn word. *)
Theorem Hash_spec (m : list Z) blen e :
  zuc_inv (zuc e) -> Forall (fits 8) m -> 0 <= blen -> blen + 95 < 2 ^ 32 ->
  blen <= 8 * Z.of_nat (length m) ->
  exists ks z' T, GenerateKeystream ((blen + 95) / 32) (zuc e) = Some (ks, z')
    /\ Hash m blen e = Some (PutUint32 T, mkEIA3 z') /\ fits 32 T
    /\ forall b, 0 <= b < 32 -> Z.testbit T (31 - b) = tag_bit ks m blen b.
Proof.
  intros Hz Fm H0 H1 Hm. destruct e as [z]. unfold Hash, hash_ks, hash_word. cbn [zuc] in *.
  rewrite !hash_keylength by lia. destruct (hash_bounds blen H0 H1) as (? & ? & ? & ?).
  destruct (draw_total ((blen + 95) / 32) z Hz) as (ks & z' & Hg & L & Fk & _).
  rewrite Hg. cbn [mbind option_bind].
  destruct (hash_loop_bits (Z.to_nat blen) ks m 0 0 Fk Fm) as (t & Ht & Ft & Bt);
    [lia | unfold fits; lia | rewrite Z2Nat.id by lia; replace (0 + blen + 30) with (blen + 30) by lia; lia
    | lia |].
  rewrite Ht. cbn [mbind option_bind].
  destruct (getZi_bits ks blen Fk) as (zi & Hzi & Fzi & Bzi); [lia | lia |].
  rewrite Hzi. cbn [mbind option_bind]. rewrite u32_small by (unfold fits; lia).
  destruct (load_word 32 ks ((blen + 95) / 32 - 1) Fk) as [Hl Fl]; [lia|].
  rewrite Hl. cbn [mbind option_bind].
  eexists ks, z', _. split; [reflexivity|]. split; [reflexivity|].
  split; [apply fits_lxor; [lia | apply fits_lxor; auto; lia | done]|].
  intros b Hb. rewrite !Z.lxor_spec, Bt, Bzi by lia. rewrite Z.bits_0, Z2Nat.id by lia.
  unfold tag_bit. rewrite ks_bit_at by lia. btauto.
Qed.

(** C11: [Verify] accepts a tag exactly when [Hash] computes that tag from the
    same state, and then leaves the state [Hash] leaves. *)
Theorem Verify_iff (m : list Z) blen mac e e' :
  Verify m blen mac e = Some (true, e') <-> Hash m blen e = Some (mac, e').
Proof.
  unfold Verify, go_bind, go_ret.
  destruct (Hash m blen e) as [[c e1]|]; [|split; discriminate].
  case_bool_decide as Hc; split; intros H; simplify_eq; done.
Qed.

(** C19: [Hash] panics when the message has fewer than [blen] bits: the
    loop reads the byte [m[len(m)]]. *)
Theorem Hash_short (m : list Z) blen e :
  zuc_inv (zuc e) -> 0 <= blen -> blen + 95 < 2 ^ 32 -> 8 * Z.of_nat (length m) < blen ->
  Hash m blen e = None.
Proof.
  intros Hz H0 H1 Hm. destruct e as [z]. unfold Hash, hash_ks, hash_word. cbn [zuc] in *.
  rewrite !hash_keylength by lia.
  destruct (draw_total ((blen + 95) / 32) z Hz) as (ks & z' & -> & L & _).
  cbn [mbind option_bind].
  replace (Z.to_nat blen) with (8 * length m + S (Z.to_nat blen - 8 * length m - 1))%nat by lia.
  rewrite hash_loop_add.
  destruct (hash_loop_total (8 * length m) ks m 0 0) as [t ->];
    [lia | rewrite L; Z.div_mod_to_equations; lia | lia |].
  cbn [mbind option_bind hash_loop].
  replace ((0 + Z.of_nat (8 * length m)) / 8) with (Z.of_nat (length m))
    by (Z.div_mod_to_equations; lia).
  by rewrite (load_None m) by lia.
Qed.

(** C17: The tag depends only on the first [blen] bits of the message:
    two messages that agree on them get the same tag and leave the same
    state. *)
Theorem Hash_prefix (m1 m2 : list Z) blen e :
  Forall (fits 8) m1 -> Forall (fits 8) m2 -> 0 <= blen ->
  blen <= 8 * Z.of_nat (length m1) -> blen <= 8 * Z.of_nat (length m2) ->
  (forall i, 0 <= i < blen -> msg_bit m1 i = msg_bit m2 i) ->
  Hash m1 blen e = Hash m2 blen e.
Proof.
  intros F1 F2 H0 H1 H2 Hag. unfold Hash, hash_ks, hash_word.
  destruct (GenerateKeystream _ (zuc e)) as [[ks z]|]; cbn [mbind option_bind]; [|done].
  rewrite (hash_loop_ext (Z.to_nat blen) ks m1 m2 0 0); [done..| lia | lia | lia |].
  intros j Hj. apply Hag. lia.
Qed.

(** C30: The IV of [NewEIA3] is the layout of the standard: COUNT, then
    BEARER in the top five bits of byte 4, COUNT again with DIRECTION in
    the top bit of byte 8, and DIRECTION again in the top bit of byte 14. *)
Theorem eia3_iv_layout count bearer direction :
  let b4 := Z.land (Z.shiftl bearer 3) 0xf8 in
  let d := Z.shiftl (Z.land direction 1) 7 in
  eia3_iv count bearer direction
  = PutUint32 count ++ [b4; 0; 0; 0]
    ++ PutUint32 (Z.lxor count (Z.shiftl (Z.land direction 1) 31)) ++ [b4; 0; d; 0].
Proof.
  intros b4 d. unfold eia3_iv, PutUint32. cbn.
  subst b4 d. repeat match goal with |- _ :: _ = _ :: _ => f_equal end; try reflexivity; bitwise.
Qed.

(** ** Test vectors of [src/eia3/eia3_test.go] *)

(** [NewEIA3(ik, count, bearer, direction).Hash(m, blen)] on a fresh
    transform. *)
Definition eia3_mac (ik : list Z) (count bearer direction blen : Z) (m : list Z) : option (list Z) :=
  e ← NewEIA3 ik count bearer direction; '(mac, _) ← Hash m blen e; Some mac.

Definition ik2 : list Z :=
  [0x47; 0x05; 0x41; 0x25; 0x56; 0x1e; 0xb2; 0xdd; 0xa9; 0x40; 0x59; 0xda; 0x05; 0x09; 0x78; 0x50].
Definition ik3 : list Z :=
  [0xc9; 0xe6; 0xce; 0xc4; 0x60; 0x7c; 0x72; 0xdb; 0x00; 0x0a; 0xef; 0xa8; 0x83; 0x85; 0xab; 0x0a].
Definition msg3 : list Z :=
  [0x98; 0x3b; 0x41; 0xd4; 0x7d; 0x78; 0x0c; 0x9e; 0x1a; 0xd1; 0x1d; 0x7e;
   0xb7; 0x03; 0x91; 0xb1; 0xde; 0x0b; 0x35; 0xda; 0x2d; 0xc6; 0x2f; 0x83;
   0xe7; 0xb7; 0x8d; 0x63; 0x06; 0xca; 0x0e; 0xa0; 0x7e; 0x94; 0x1b; 0x7b;
   0xe9; 0x13; 0x48; 0xf9; 0xfc; 0xb1; 0x70; 0xe2; 0x21; 0x7f; 0xec; 0xd9;
   0x7f; 0x9f; 0x68; 0xad; 0xb1; 0x6e; 0x5d; 0x7d; 0x21; 0xe5; 0x69; 0xd2;
   0x80; 0xed; 0x77; 0x5c; 0xeb; 0xde; 0x3f; 0x40; 0x93; 0xc5; 0x38; 0x81;
   0x00; 0x00; 0x00; 0x00].

(** The transform of test set 1 and the state it is left in by hashing
    one zero bit. *)
Definition eia3_set1 : EIA3 :=
  match NewEIA3 (repeat 0 16) 0 0 KEY_UPLINK with Some e => e | None => mkEIA3 zuc0 end.
Definition eia3_set1_after : EIA3 :=
  match Hash [0] 1 eia3_set1 with Some (_, e') => e' | None => eia3_set1 end.

(** Test sets 1 and 2: one zero bit under the all-zero key gives the
    tag c8a9595e, 90 zero bits under the second key give 6719a088. *)
Theorem eia3_test_sets_1_2 :
  eia3_mac (repeat 0 16) 0 0 KEY_UPLINK 1 [0; 0; 0; 0] = Some [0xc8; 0xa9; 0x59; 0x5e]
  /\ eia3_mac ik2 0x561eb2dd 0x14 KEY_UPLINK 90 (repeat 0 12) = Some [0x67; 0x19; 0xa0; 0x88].
Proof. split; vm_compute; reflexivity. Qed.

(** Test set 3: 577 bits on the downlink give the tag fae8ff0b. *)
Theorem eia3_test_set_3 :
  eia3_mac ik3 0xa94059da 0x0a KEY_DOWNLINK 577 msg3 = Some [0xfa; 0xe8; 0xff; 0x0b].
Proof. vm_compute. reflexivity. Qed.

(** Reusing one [EIA3] value: [Verify] after a [Hash] on the same
    transform continues the keystream and rejects the tag just computed. *)
Theorem eia3_reuse_rejects :
  (e ← NewEIA3 (repeat 0 16) 0 0 KEY_UPLINK; '(mac, e1) ← Hash [0] 1 e;
   '(ok, _) ← Verify [0] 1 mac e1; Some ok) = Some false.
Proof. vm_compute. reflexivity. Qed.

(** ** Witnesses *)

Lemma Hash_total_witness :
  exists mac e', Hash [0] 1 eia3_set1 = Some (mac, e')
    /\ length mac = 4%nat /\ Forall (fits 8) mac /\ zuc_inv (zuc e').
Proof.
  apply Hash_total; [decide_concrete | lia | lia | simpl; lia].
Defined.

Lemma Hash_overflow_witness : Hash [] (2 ^ 32 - 1) eia3_set1 = None.
Proof. apply Hash_overflow. lia. Defined.

Lemma Hash_flip_witness :
  exists w ks zp, [0xc8; 0xa9; 0x59; 0x5e] = PutUint32 w
    /\ GenerateKeystream ((1 + 95) / 32) (zuc eia3_set1) = Some (ks, zuc eia3_set1_after)
    /\ getZi ks 0 = Some zp
    /\ Hash (flip_bit [0] 0) 1 eia3_set1 = Some (PutUint32 (Z.lxor w zp), eia3_set1_after).
Proof.
  apply (Hash_flip [0] 1 eia3_set1 [0xc8; 0xa9; 0x59; 0x5e] eia3_set1_after 0);
    [decide_concrete | lia | lia
    | vm_compute; reflexivity | vm_compute; reflexivity].
Defined.

Lemma Hash_short_witness : Hash [0] 9 eia3_set1 = None.
Proof. apply Hash_short; [decide_concrete | lia | lia | simpl; lia]. Defined.

Lemma Hash_prefix_witness : Hash [0x80] 1 eia3_set1 = Hash [0xff] 1 eia3_set1.
Proof.
  apply Hash_prefix; [decide_concrete | decide_concrete | lia | simpl; lia | simpl; lia |].
  intros i Hi. replace i with 0 by lia. reflexivity.
Defined.

Lemma Hash_spec_witness :
  exists ks z' T, GenerateKeystream ((1 + 95) / 32) (zuc eia3_set1) = Some (ks, z')
    /\ Hash [0] 1 eia3_set1 = Some (PutUint32 T, mkEIA3 z') /\ fits 32 T
    /\ forall b, 0 <= b < 32 -> Z.testbit T (31 - b) = tag_bit ks [0] 1 b.
Proof. apply Hash_spec; [decide_concrete | decide_concrete | lia | lia | decide_concrete]. Defined.
